(** * Portfolio reconstruction and performance metrics

    A shallow embedding of the reconstruction-and-analytics code of the
    dashboard generators:

    - [export_dashboard.py]: [recalculate_portfolio_from_csv] and the
      hourly [calculate_performance_metrics];
    - [generate_static_dashboard.py]: the daily
      [calculate_performance_metrics] (win rate, volatility, maximum
      drawdown, best and worst instrument);
    - [generate_dashboard.py]: the total-value computation of [main].

    Modelling conventions.

    - A data frame is the list of its rows, in row order.  A nullable
      numeric cell is an [option]: [None] is pandas' NaN/null.
    - Numbers computed by the code are IEEE doubles.  They are modelled by
      [float]: an exact rational, or one of the special values the code can
      produce by dividing by zero (both infinities and NaN).  Rounding and
      overflow are abstracted away; the behaviour of the special values in
      arithmetic and comparisons follows IEEE 754, which is what numpy
      implements (a division by zero yields an infinity or NaN, it does not
      raise).
    - A Python exception is a value of the [exc] monad.
    - Timestamps are integers (seconds); [floor] rounds down to a bucket.
    - [df.sort_values('timestamp')] runs pandas' default quicksort, which
      does not keep the order of rows of equal timestamp.  The functions
      that sort take the sort as a parameter [pd_sort]; the statements
      assume only that it returns the rows of the frame in ascending
      timestamp order ([sorted_by_timestamp]).  [sort_values] follows
      numpy's introsort and is what the code is evaluated with on given
      logs; [chronological_order], which keeps rows of equal timestamp in
      insertion order, is the order the specification speaks of. *)

From Stdlib Require Import ZArith QArith Qround Lia Lqa.
From stdpp Require Import base option list sorting gmap strings.

Local Open Scope Z_scope.

(** ** IEEE special values over exact rationals *)

Inductive float : Type :=
  | Fin (q : Q)
  | PInf
  | NInf
  | NaN.

Definition Qlt_bool (a b : Q) : bool := negb (Qle_bool b a).

Definition inf_of_sign (c : comparison) : float :=
  match c with Gt => PInf | Lt => NInf | Eq => NaN end.

Definition fneg (x : float) : float :=
  match x with
  | Fin a => Fin (- a)
  | PInf => NInf
  | NInf => PInf
  | NaN => NaN
  end.

Definition fadd (x y : float) : float :=
  match x, y with
  | NaN, _ | _, NaN => NaN
  | Fin a, Fin b => Fin (a + b)
  | PInf, NInf | NInf, PInf => NaN
  | PInf, _ | _, PInf => PInf
  | NInf, _ | _, NInf => NInf
  end.

Definition fsub (x y : float) : float :=
  match x, y with
  | Fin a, Fin b => Fin (a - b)
  | _, _ => fadd x (fneg y)
  end.

Definition fmul (x y : float) : float :=
  match x, y with
  | NaN, _ | _, NaN => NaN
  | Fin a, Fin b => Fin (a * b)
  | Fin a, PInf | PInf, Fin a => inf_of_sign (a ?= 0)%Q
  | Fin a, NInf | NInf, Fin a => inf_of_sign (0 ?= a)%Q
  | PInf, PInf | NInf, NInf => PInf
  | PInf, NInf | NInf, PInf => NInf
  end.

(** Division: a finite value divided by zero is an infinity of the sign of
    the numerator, and 0/0 is NaN. *)
Definition fdiv (x y : float) : float :=
  match x, y with
  | NaN, _ | _, NaN => NaN
  | Fin a, Fin b =>
      if Qeq_bool b 0 then inf_of_sign (a ?= 0)%Q else Fin (a / b)
  | Fin _, (PInf | NInf) => Fin 0
  | PInf, Fin b => if Qlt_bool b 0 then NInf else PInf
  | NInf, Fin b => if Qlt_bool b 0 then PInf else NInf
  | (PInf | NInf), (PInf | NInf) => NaN
  end.

(** [flt x y] is the comparison [x < y]; any comparison with NaN is false. *)
Definition flt (x y : float) : bool :=
  match x, y with
  | NaN, _ | _, NaN => false
  | Fin a, Fin b => Qlt_bool a b
  | _, NInf => false
  | NInf, _ => true
  | PInf, _ => false
  | Fin _, PInf => true
  end.

Definition fgt (x y : float) : bool := flt y x.


(** Equality of floats up to the representation of the rational. *)
Definition feq (x y : float) : Prop :=
  match x, y with
  | Fin a, Fin b => (a == b)%Q
  | PInf, PInf | NInf, NInf | NaN, NaN => True
  | _, _ => False
  end.

(** A nullable cell read as a float: null is NaN. *)
Definition cell (c : option Q) : float :=
  match c with Some q => Fin q | None => NaN end.

(** ** Exceptions *)

Inductive exception : Type :=
  | IndexError
  | ValueError.

Inductive exc (A : Type) : Type :=
  | Ok (a : A)
  | Raise (e : exception).
Arguments Ok {A} a.
Arguments Raise {A} e.

#[global] Instance exc_ret : MRet exc := λ A a, Ok a.
#[global] Instance exc_bind : MBind exc := λ A B f m,
  match m with Ok a => f a | Raise e => Raise e end.

(** ** The log *)

Record Row : Type := mkRow {
  timestamp : Z;
  ticker : string;
  action : string;
  quantity : option Z;
  close : option Q;
  position_after : option Z;
  cash_after : option Q
}.

Abbreviation DataFrame := (list Row).

(** ** pandas primitives *)

(** [s.dropna()] *)
Definition dropna {A} (s : list (option A)) : list A := omap id s.

(** [s.isna().all()] *)
Definition isna_all {A} (s : list (option A)) : bool :=
  forallb (λ c, match c with None => true | Some _ => false end) s.

(** [s.iloc[-1]]: raises IndexError on an empty series. *)
Definition iloc_last {A} (s : list A) : exc A :=
  match last s with Some a => Ok a | None => Raise IndexError end.

(** [s.iloc[0]] *)
Definition iloc_first {A} (s : list A) : exc A :=
  match s with a :: _ => Ok a | [] => Raise IndexError end.

(** [s.unique()]: the distinct values in order of first appearance. *)
Definition unique `{EqDecision A} (s : list A) : list A :=
  foldl (λ seen x, if decide (x ∈ seen) then seen else seen ++ [x]) [] s.

(** The chronological order of the specification: ascending timestamps,
    rows of equal timestamp in their original insertion order (a row is
    moved only past rows that are strictly later).  This is the order the
    specification speaks of, not the result of the sort the code calls,
    which is [sort_values] below. *)
Fixpoint insert_by_timestamp (r : Row) (df : DataFrame) : DataFrame :=
  match df with
  | [] => [r]
  | r' :: df' =>
      if timestamp r <=? timestamp r' then r :: df
      else r' :: insert_by_timestamp r df'
  end.

Definition chronological_order (df : DataFrame) : DataFrame :=
  foldr insert_by_timestamp [] df.

(** ** The sort the code calls

    [df.sort_values('timestamp')] is called with the default
    [kind='quicksort']: pandas takes the indexer from numpy's [argsort] on
    the timestamps, an introsort that is not stable.  [Numpy.argsort]
    follows numpy's [aquicksort]: ranges with [pr - pl > 16] are split
    around the median of three, shorter ranges are sorted by insertion.
    The heapsort that numpy switches to when the depth budget
    [2 * floor(log2 n)] is used up is not transcribed: [argsort] is [None]
    there. *)

Module Numpy.

Definition SMALL_QUICKSORT : Z := 16.

(** [v[tosort[i]]] *)
Definition key (v : list Z) (tosort : list nat) (i : Z) : Z :=
  default 0 (tosort !! Z.to_nat i ≫= λ j, v !! j).

(** [INTP_SWAP(tosort[i], tosort[j])] *)
Definition swap (tosort : list nat) (i j : Z) : list nat :=
  match tosort !! Z.to_nat i, tosort !! Z.to_nat j with
  | Some a, Some b => <[Z.to_nat j := a]> (<[Z.to_nat i := b]> tosort)
  | _, _ => tosort
  end.

Definition swap_if_less (v : list Z) (tosort : list nat) (i j : Z) : list nat :=
  if key v tosort i <? key v tosort j then swap tosort i j else tosort.

(** [do ++pi; while (v[*pi] < vp)] *)
Fixpoint scan_up (fuel : nat) (v : list Z) (tosort : list nat) (vp pi : Z) : Z :=
  match fuel with
  | O => pi
  | S fuel =>
      let pi := pi + 1 in
      if key v tosort pi <? vp then scan_up fuel v tosort vp pi else pi
  end.

(** [do --pj; while (vp < v[*pj])] *)
Fixpoint scan_down (fuel : nat) (v : list Z) (tosort : list nat) (vp pj : Z) : Z :=
  match fuel with
  | O => pj
  | S fuel =>
      let pj := pj - 1 in
      if vp <? key v tosort pj then scan_down fuel v tosort vp pj else pj
  end.

(** The [for (;;)] of the partition; returns the indexer and [pi]. *)
Fixpoint partition_loop (fuel : nat) (v : list Z) (tosort : list nat)
  (vp pi pj : Z) : list nat * Z :=
  match fuel with
  | O => (tosort, pi)
  | S fuel =>
      let pi := scan_up (length tosort) v tosort vp pi in
      let pj := scan_down (length tosort) v tosort vp pj in
      if pj <=? pi then (tosort, pi)
      else partition_loop fuel v (swap tosort pi pj) vp pi pj
  end.

Record Range : Type := mkRange { r_pl : Z; r_pr : Z; r_depth : Z }.

Record State : Type := mkState {
  s_tosort : list nat;
  s_pl : Z;
  s_pr : Z;
  s_stack : list Range;
  s_cdepth : Z
}.

(** [while ((pr - pl) > SMALL_QUICKSORT)]: partition, push the larger
    part, go on with the smaller. *)
Fixpoint partition_phase (fuel : nat) (v : list Z) (st : State) : State :=
  match fuel with
  | O => st
  | S fuel =>
      let pl := s_pl st in
      let pr := s_pr st in
      if SMALL_QUICKSORT <? pr - pl then
        let pm := pl + Z.shiftr (pr - pl) 1 in
        let t := swap_if_less v (s_tosort st) pm pl in
        let t := swap_if_less v t pr pm in
        let t := swap_if_less v t pm pl in
        let vp := key v t pm in
        let t := swap t pm (pr - 1) in
        let '(t, pi) := partition_loop (length t) v t vp pl (pr - 1) in
        let t := swap t pi (pr - 1) in
        let cdepth := s_cdepth st - 1 in
        if pi - pl <? pr - pi then
          partition_phase fuel v
            {| s_tosort := t; s_pl := pl; s_pr := pi - 1;
               s_stack := mkRange (pi + 1) pr cdepth :: s_stack st;
               s_cdepth := cdepth |}
        else
          partition_phase fuel v
            {| s_tosort := t; s_pl := pi + 1; s_pr := pr;
               s_stack := mkRange pl (pi - 1) cdepth :: s_stack st;
               s_cdepth := cdepth |}
      else st
  end.

(** The [while (pj > pl && vp < v[*pk])] of the insertion sort. *)
Fixpoint insert_down (fuel : nat) (v : list Z) (tosort : list nat)
  (pl : Z) (vi : nat) (vp pj : Z) : list nat :=
  match fuel with
  | O => <[Z.to_nat pj := vi]> tosort
  | S fuel =>
      if (pl <? pj) && (vp <? key v tosort (pj - 1)) then
        insert_down fuel v
          (<[Z.to_nat pj := default vi (tosort !! Z.to_nat (pj - 1))]> tosort)
          pl vi vp (pj - 1)
      else <[Z.to_nat pj := vi]> tosort
  end.

(** [for (pi = pl + 1; pi <= pr; ++pi)] *)
Fixpoint insertion_sort (fuel : nat) (v : list Z) (tosort : list nat)
  (pl pr pi : Z) : list nat :=
  match fuel with
  | O => tosort
  | S fuel =>
      if pi <=? pr then
        match tosort !! Z.to_nat pi with
        | Some vi =>
            insertion_sort fuel v
              (insert_down (length tosort) v tosort pl vi (default 0 (v !! vi)) pi)
              pl pr (pi + 1)
        | None => tosort
        end
      else tosort
  end.

(** The outer [while (1)] with its stack of pending ranges. *)
Fixpoint aquicksort_loop (fuel : nat) (v : list Z) (st : State)
  : option (list nat) :=
  match fuel with
  | O => None
  | S fuel =>
      if s_cdepth st <? 0 then None
      else
        let st := partition_phase (length v) v st in
        let t := insertion_sort (length v) v (s_tosort st)
                   (s_pl st) (s_pr st) (s_pl st + 1) in
        match s_stack st with
        | [] => Some t
        | r :: stack =>
            aquicksort_loop fuel v
              {| s_tosort := t; s_pl := r_pl r; s_pr := r_pr r;
                 s_stack := stack; s_cdepth := r_depth r |}
        end
  end.

Definition argsort (v : list Z) : option (list nat) :=
  let num := Z.of_nat (length v) in
  aquicksort_loop (S (length v)) v
    {| s_tosort := seq 0 (length v); s_pl := 0; s_pr := num - 1;
       s_stack := []; s_cdepth := 2 * Z.log2 num |}.

End Numpy.

(** The rows of [df] at the positions of the indexer. *)
Definition take_rows (df : DataFrame) (indexer : list nat) : DataFrame :=
  omap (λ i, df !! i) indexer.

(** [df.sort_values('timestamp')] as numpy computes it.  Where the heapsort
    fallback would run the rows are given in chronological order: the
    frame is sorted there too, but nothing is said about its order among
    equal timestamps. *)
Definition sort_values (df : DataFrame) : DataFrame :=
  match Numpy.argsort (timestamp <$> df) with
  | Some indexer => take_rows df indexer
  | None => chronological_order df
  end.

(** What any sort guarantees: [sorted] holds the rows of [df] in ascending
    timestamp order.  The functions that sort take the sort as a parameter
    [pd_sort]; the statements assume no more of it than this, on the frame
    at hand, so they hold for numpy's introsort as for any other kind. *)
Definition sorted_by_timestamp (df sorted : DataFrame) : Prop :=
  sorted ≡ₚ df ∧ StronglySorted (λ a b, timestamp a ≤ timestamp b) sorted.

(** [s.max()] of a non-empty integer series. *)
Definition series_max (s : list Z) : option Z :=
  match s with
  | [] => None
  | x :: s' => Some (foldl Z.max x s')
  end.

(** [ts.dt.floor(g)] for a granularity of [g] seconds. *)
Definition floor (g : Z) (t : Z) : Z := g * (t / g).

Definition hour : Z := 3600.
Definition day : Z := 86400.

(** The portfolio manager object the generators receive.  Its class lives
    outside these files; the record holds the attributes the code reads and
    writes. *)
Record Trade : Type := mkTrade {
  trade_timestamp : Z;
  trade_stock : string;
  trade_shares : Z;
  trade_price : float;
  trade_total_cost : float
}.

Record PortfolioManager : Type := mkPM {
  stocks : list string;
  portfolio : gmap string Z;
  cash : Q;
  trades : list Trade;
  initial_value : Q
}.

Definition is_buy (r : Row) : bool := bool_decide (action r = "BUY"%string).

(** A row with both [position_after] and [cash_after] populated. *)
Definition is_checkpoint (r : Row) : bool :=
  match position_after r, cash_after r with
  | Some _, Some _ => true
  | _, _ => false
  end.

Definition at_timestamp (t : Z) (r : Row) : bool := timestamp r =? t.
Definition of_ticker (s : string) (r : Row) : bool := bool_decide (ticker r = s).

(** ** Valuation per time bucket

    The loop shared (verbatim) by the hourly metrics and timeline of
    [export_dashboard.py] and by the daily metrics and timeline of
    [generate_static_dashboard.py]. *)

(** The body of [for stock in pm.stocks], for one stock: the amount added
    to [stock_value].  After [dropna()] neither [position] nor [price] can
    be null, so the inner [pd.isna] test always passes. *)
Definition stock_contribution (timestamp_data : DataFrame) (stock : string)
  : exc Q :=
  let stock_rows := filter (λ r, of_ticker stock r) timestamp_data in
  if negb (bool_decide (stock_rows = []))
     && negb (isna_all (position_after <$> stock_rows))
  then
    position ← iloc_last (dropna (position_after <$> stock_rows));
    price ← iloc_last (dropna (close <$> stock_rows));
    mret (inject_Z position * price)%Q
  else mret 0%Q.

Fixpoint stock_value_loop (timestamp_data : DataFrame) (stocks : list string)
  (stock_value : Q) : exc Q :=
  match stocks with
  | [] => mret stock_value
  | stock :: rest =>
      v ← stock_contribution timestamp_data stock;
      stock_value_loop timestamp_data rest (stock_value + v)%Q
  end.

(** One bucket: [None] when the bucket is skipped, the total otherwise. *)
Definition bucket_value (stocks : list string) (timestamp_data : DataFrame)
  : exc (option Q) :=
  if isna_all (cash_after <$> timestamp_data) then mret None
  else
    latest_cash ← iloc_last (dropna (cash_after <$> timestamp_data));
    stock_value ← stock_value_loop timestamp_data stocks 0%Q;
    mret (Some (stock_value + latest_cash)%Q).

Definition in_bucket (g b : Z) (r : Row) : bool := floor g (timestamp r) =? b.

Fixpoint portfolio_values_loop (g : Z) (stocks : list string) (df : DataFrame)
  (buckets : list Z) (portfolio_values : list Q) : exc (list Q) :=
  match buckets with
  | [] => mret portfolio_values
  | b :: rest =>
      v ← bucket_value stocks (filter (λ r, in_bucket g b r) df);
      portfolio_values_loop g stocks df rest
        (match v with Some x => portfolio_values ++ [x] | None => portfolio_values end)
  end.

Definition portfolio_values (g : Z) (stocks : list string) (df : DataFrame)
  : exc (list Q) :=
  portfolio_values_loop g stocks df
    (unique (floor g <$> (timestamp <$> df))) [].

(** ** Period returns, volatility, win rate *)

(** [np.diff(portfolio_values) / portfolio_values[:-1]] *)
Fixpoint returns (values : list Q) : list float :=
  match values with
  | v0 :: ((v1 :: _) as rest) =>
      fdiv (fsub (Fin v1) (Fin v0)) (Fin v0) :: returns rest
  | _ => []
  end.

Definition fsum (l : list float) : float := foldl fadd (Fin 0) l.

Definition np_mean (l : list float) : float :=
  fdiv (fsum l) (Fin (inject_Z (Z.of_nat (length l)))).

(** [np.std]: the population standard deviation.  The square root is not a
    rational function; it is a parameter of the model. *)
Definition np_std (np_sqrt : float → float) (l : list float) : float :=
  let m := np_mean l in
  np_sqrt (np_mean ((λ x, fmul (fsub x m) (fsub x m)) <$> l)).

(** [future_prices] of a trade and the test
    [not future_prices.empty and future_prices.iloc[-1] > trade['close']]. *)
Definition future_prices (df : DataFrame) (trade : Row) : list (option Q) :=
  close <$> filter (λ r, of_ticker (ticker trade) r
                          && (timestamp trade <? timestamp r)) df.

Definition is_winning (df : DataFrame) (trade : Row) : bool :=
  match last (future_prices df trade) with
  | Some p => fgt (cell p) (cell (close trade))
  | None => false
  end.

Definition winning_trades (df : DataFrame) : nat :=
  length (filter (λ t, is_winning df t) (filter (λ r, is_buy r) df)).

Definition win_rate (df : DataFrame) : Q :=
  let trades := filter (λ r, is_buy r) df in
  if bool_decide (trades = []) then 0%Q
  else (inject_Z (Z.of_nat (winning_trades df))
        / inject_Z (Z.of_nat (length trades)) * 100)%Q.

(** ** Maximum drawdown (generate_static_dashboard.py) *)

(** The body of [for value in portfolio_values]; the state is
    [(peak, max_dd)]. *)
Definition drawdown_step (st : Q * float) (value : Q) : Q * float :=
  let peak := if Qlt_bool (fst st) value then value else fst st in
  let dd := fmul (fdiv (fsub (Fin peak) (Fin value)) (Fin peak)) (Fin 100) in
  (peak, if fgt dd (snd st) then dd else snd st).

Definition max_drawdown (portfolio_values : list Q) : exc float :=
  peak ← iloc_first portfolio_values;
  mret (snd (foldl drawdown_step (peak, Fin 0) portfolio_values)).

(** ** Best and worst instrument (generate_static_dashboard.py) *)

(** [ret] of a stock, when the stock has more than one row. *)
Definition stock_return (df : DataFrame) (stock : string) : option float :=
  let stock_data := filter (λ r, of_ticker stock r) df in
  if (1 <? length stock_data)%nat then
    let first_price := from_option cell NaN (head (close <$> stock_data)) in
    let last_price := from_option cell NaN (last (close <$> stock_data)) in
    Some (fmul (fdiv (fsub last_price first_price) first_price) (Fin 100))
  else None.

(** The formatted names [best_stock] and [worst_stock] are represented by
    the ticker and its return; [None] is the initial ["N/A"]. *)
Record BestWorst : Type := mkBestWorst {
  best_return : float;
  best_stock : option (string * float);
  worst_return : float;
  worst_stock : option (string * float)
}.

Definition best_worst_init : BestWorst :=
  {| best_return := NInf; best_stock := None;
     worst_return := PInf; worst_stock := None |}.

Definition best_worst_step (df : DataFrame) (st : BestWorst) (stock : string)
  : BestWorst :=
  match stock_return df stock with
  | Some ret =>
      let st1 :=
        if fgt ret (best_return st)
        then {| best_return := ret; best_stock := Some (stock, ret);
                worst_return := worst_return st; worst_stock := worst_stock st |}
        else st in
      if flt ret (worst_return st1)
      then {| best_return := best_return st1; best_stock := best_stock st1;
              worst_return := ret; worst_stock := Some (stock, ret) |}
      else st1
  | None => st
  end.

Definition best_worst (df : DataFrame) (stocks : list string) : BestWorst :=
  foldl (best_worst_step df) best_worst_init stocks.

(** ** export_dashboard.py *)

Module ExportDashboard.

(** The dictionary [new_portfolio] built from the rows of [latest_state]. *)
Definition new_portfolio (latest_state : DataFrame) : gmap string Z :=
  foldl (λ m row,
           match position_after row with
           | Some p => <[ticker row := p]> m
           | None => m
           end) ∅ latest_state.

(** [int(x)] of a cell: raises ValueError on NaN. *)
Definition int_of_cell (c : option Z) : exc Z :=
  match c with Some n => Ok n | None => Raise ValueError end.

(** The dictionary appended to [trades] for a BUY row. *)
Definition trade_of_row (row : Row) : exc Trade :=
  shares ← int_of_cell (quantity row);
  mret {| trade_timestamp := timestamp row;
          trade_stock := ticker row;
          trade_shares := shares;
          trade_price := cell (close row);
          trade_total_cost := fmul (Fin (inject_Z shares)) (cell (close row)) |}.

(** [for _, row in buy_actions.iterrows(): trades.append(...)] *)
Fixpoint trades_loop (buy_actions : DataFrame) : exc (list Trade) :=
  match buy_actions with
  | [] => mret []
  | row :: rest =>
      trade ← trade_of_row row;
      trades ← trades_loop rest;
      mret (trade :: trades)
  end.

(** The function runs inside [try: ... except Exception], so nothing
    escapes it.  The [iloc[-1]] of the cash column would be raised before
    [pm] is touched; the [int()] of a null quantity is raised after
    [pm.portfolio] and [pm.cash] have been written and before [pm.trades]
    is, which leaves the old trades in place.  [pd_sort] is the sort
    [df.sort_values('timestamp')] runs; writing the state to disk
    ([pm.save_data()]) is outside the model. *)
Definition recalculate_portfolio_from_csv (pd_sort : DataFrame → DataFrame)
  (pm : PortfolioManager) (csv : DataFrame) : PortfolioManager :=
  let df := pd_sort csv in
  let last_complete := filter (λ r, is_checkpoint r) df in
  match series_max (timestamp <$> last_complete) with
  | None => pm
  | Some latest_timestamp =>
      let latest_state := filter (λ r, at_timestamp latest_timestamp r) df in
      let new_portfolio := new_portfolio latest_state in
      match iloc_last (dropna (cash_after <$> latest_state)) with
      | Raise _ => pm
      | Ok latest_cash =>
          {| stocks := stocks pm;
             portfolio :=
               foldl (λ m stock, <[stock := default 0 (new_portfolio !! stock)]> m)
                     (portfolio pm) (stocks pm);
             cash := latest_cash;
             trades :=
               match trades_loop (filter (λ r, is_buy r) df) with
               | Ok trades => trades
               | Raise _ => trades pm
               end;
             initial_value := initial_value pm |}
      end
  end.

Record Metrics : Type := mkMetrics {
  m_volatility : float;
  m_win_rate : Q
}.

(** Hourly buckets; [None] is the empty dictionary. *)
Definition calculate_performance_metrics (np_sqrt : float → float)
  (pm : PortfolioManager) (df : DataFrame) : exc (option Metrics) :=
  if bool_decide (df = []) then mret None
  else
    portfolio_values ← portfolio_values hour (stocks pm) df;
    if (length portfolio_values <? 2)%nat then mret None
    else
      let returns := returns portfolio_values in
      mret (Some {| m_volatility :=
                      fmul (fmul (np_std np_sqrt returns) (np_sqrt (Fin 252)))
                           (Fin 100);
                    m_win_rate := win_rate df |}).

End ExportDashboard.

(** ** generate_static_dashboard.py *)

Module StaticDashboard.

Record Metrics : Type := mkMetrics {
  m_win_rate : Q;
  m_volatility : float;
  m_max_drawdown : float;
  m_best_stock : option (string * float);
  m_worst_stock : option (string * float)
}.

(** The win rate with its second, redundant emptiness test. *)
Definition win_rate (df : DataFrame) : Q :=
  let trades := filter (λ r, is_buy r) df in
  if bool_decide (trades = []) then 0%Q
  else if (0 <? length trades)%nat
       then (inject_Z (Z.of_nat (winning_trades df))
             / inject_Z (Z.of_nat (length trades)) * 100)%Q
       else 0%Q.

(** Daily buckets; [None] is the empty dictionary. *)
Definition calculate_performance_metrics (np_sqrt : float → float)
  (df : DataFrame) (pm : PortfolioManager) : exc (option Metrics) :=
  if bool_decide (df = []) then mret None
  else
    portfolio_values ← portfolio_values day (stocks pm) df;
    if (length portfolio_values <? 2)%nat then mret None
    else
      let returns := returns portfolio_values in
      max_dd ← max_drawdown portfolio_values;
      let bw := best_worst df (stocks pm) in
      mret (Some {| m_win_rate := win_rate df;
                    m_volatility :=
                      if (0 <? length returns)%nat
                      then fmul (fmul (np_std np_sqrt returns) (np_sqrt (Fin 252)))
                                (Fin 100)
                      else Fin 0;
                    m_max_drawdown := max_dd;
                    m_best_stock := best_stock bw;
                    m_worst_stock := worst_stock bw |}).

End StaticDashboard.

(** ** generate_dashboard.py *)

Module GenerateDashboard.

(** One row of [latest_data]: [GroupBy.last()] takes, column by column,
    the last non-null entry of the group (null when the group has
    none). *)
Record Latest : Type := mkLatest {
  l_close : option Q;
  l_position_after : option Z;
  l_cash_after : option Q
}.

Definition group_last (rows : DataFrame) : Latest :=
  {| l_close := last (dropna (close <$> rows));
     l_position_after := last (dropna (position_after <$> rows));
     l_cash_after := last (dropna (cash_after <$> rows)) |}.

(** The group keys come out sorted. *)
Fixpoint insert_key (k : string) (keys : list string) : list string :=
  match keys with
  | [] => [k]
  | k' :: keys' =>
      if String.leb k k' then k :: keys else k' :: insert_key k keys'
  end.

Definition sort_keys (keys : list string) : list string :=
  foldr insert_key [] keys.

(** [df.sort_values('timestamp').groupby('ticker').last()], with [pd_sort]
    the sort that runs; within a group the rows keep the order of the
    sorted frame. *)
Definition groupby_ticker_last (pd_sort : DataFrame → DataFrame) (df : DataFrame)
  : list (string * Latest) :=
  let sorted := pd_sort df in
  (λ k, (k, group_last (filter (λ r, of_ticker k r) sorted)))
    <$> sort_keys (unique (ticker <$> sorted)).

(** [value] of a ticker whose row passes the test on [position_after]
    and [cash_after]. *)
Definition holding_value (row : Latest) : option float :=
  match l_position_after row, l_cash_after row with
  | Some p, Some _ => Some (fmul (Fin (inject_Z p)) (cell (l_close row)))
  | _, _ => None
  end.

Definition holdings_total (latest_data : list (string * Latest)) : float :=
  foldl (λ total_value kr,
           match holding_value kr.2 with
           | Some value => fadd total_value value
           | None => total_value
           end) (Fin 0) latest_data.

Definition latest_cash (latest_data : list (string * Latest)) : Q :=
  match last (dropna ((λ kr, l_cash_after kr.2) <$> latest_data)) with
  | Some c => c
  | None => 0%Q
  end.

(** [total_value] as printed by [main]. *)
Definition total_value (pd_sort : DataFrame → DataFrame) (df : DataFrame)
  : float :=
  let latest_data := groupby_ticker_last pd_sort df in
  fadd (holdings_total latest_data) (Fin (latest_cash latest_data)).

(** The reading in which [latest_data] holds each ticker's last row as it
    is, nulls included; used only to compare with [total_value]. *)
Definition group_last_row (rows : DataFrame) : Latest :=
  match last rows with
  | Some r => {| l_close := close r;
                 l_position_after := position_after r;
                 l_cash_after := cash_after r |}
  | None => {| l_close := None; l_position_after := None; l_cash_after := None |}
  end.

Definition total_value_last_row (pd_sort : DataFrame → DataFrame)
  (df : DataFrame) : float :=
  let sorted := pd_sort df in
  let latest_data :=
    (λ k, (k, group_last_row (filter (λ r, of_ticker k r) sorted)))
      <$> sort_keys (unique (ticker <$> sorted)) in
  fadd (holdings_total latest_data) (Fin (latest_cash latest_data)).

End GenerateDashboard.

(** ** The maximum drawdown as the specification words it

    The running peak starts at the first valuation; each subsequent point
    is measured against the peak before the peak is updated; the largest
    drawdown observed (none being 0) is reported. *)
Definition drawdown_step_spec (st : Q * float) (value : Q) : Q * float :=
  let dd := fmul (fdiv (fsub (Fin (fst st)) (Fin value)) (Fin (fst st))) (Fin 100) in
  (if Qlt_bool (fst st) value then value else fst st,
   if fgt dd (snd st) then dd else snd st).

Definition max_drawdown_spec (values : list Q) : option float :=
  match values with
  | [] => None
  | v0 :: rest => Some (snd (foldl drawdown_step_spec (v0, Fin 0) rest))
  end.

(** ** Predicates used in the statements *)

(** [T] is the largest timestamp of a checkpoint row of the log. *)
Definition max_checkpoint_timestamp (csv : DataFrame) (T : Z) : Prop :=
  (∃ r, r ∈ csv ∧ is_checkpoint r = true ∧ timestamp r = T) ∧
  (∀ r, r ∈ csv → is_checkpoint r = true → timestamp r ≤ T).

(** The last non-null entry of a column, in row order. *)
Definition last_non_null {A} (column : Row → option A) (rows : DataFrame)
  : option A :=
  last (dropna (column <$> rows)).

(** ** Sample logs *)

Definition sample_pm : PortfolioManager :=
  {| stocks := ["AAPL"; "MSFT"]%string; portfolio := ∅; cash := 10000;
     trades := []; initial_value := 10000 |}.

(** A bucket in which AAPL has a position but no price. *)
Definition null_close_log : DataFrame :=
  [ mkRow 0 "AAPL" "HOLD" (Some 0) None (Some 10) (Some 5000%Q);
    mkRow 86400 "AAPL" "HOLD" (Some 0) (Some 150%Q) (Some 10) (Some 5000%Q) ].

(** A valuation series never falls below its earlier points. *)
Fixpoint nondecreasing (values : list Q) : Prop :=
  match values with
  | a :: ((b :: _) as rest) => (a <= b)%Q ∧ nondecreasing rest
  | _ => True
  end.

(** Rounding to [n] decimals, as the specification prints its examples. *)
Definition round_decimals (n : nat) (q : Q) : Q :=
  (inject_Z (Qfloor (q * inject_Z (10 ^ Z.of_nat n) + (1 # 2)))
   / inject_Z (10 ^ Z.of_nat n))%Q.

Definition fround (n : nat) (x : float) : float :=
  match x with Fin q => Fin (round_decimals n q) | _ => x end.

(** The expression [((peak - value) / peak) * 100]. *)
Definition drawdown_of (peak value : Q) : float :=
  fmul (fdiv (fsub (Fin peak) (Fin value)) (Fin peak)) (Fin 100).

(** The loop invariant on non-negative series: the peak is not negative
    and the largest drawdown so far is a percentage. *)
Definition drawdown_inv (st : Q * float) : Prop :=
  ∃ m, snd st = Fin m ∧ (0 <= m)%Q ∧ (m <= 100)%Q ∧ (0 <= fst st)%Q.

(** [stock] is the first ticker of [tracked], in iteration order, whose
    return [q] is the largest (resp. the smallest) of the tracked tickers
    that have one. *)
Definition first_maximal (df : DataFrame) (tracked : list string)
  (stock : string) (q : Q) : Prop :=
  ∃ pre post, tracked = pre ++ stock :: post
    ∧ stock_return df stock = Some (Fin q)
    ∧ (∀ s' q', s' ∈ pre → stock_return df s' = Some (Fin q') → (q' < q)%Q)
    ∧ (∀ s' q', s' ∈ post → stock_return df s' = Some (Fin q') → (q' <= q)%Q).

Definition first_minimal (df : DataFrame) (tracked : list string)
  (stock : string) (q : Q) : Prop :=
  ∃ pre post, tracked = pre ++ stock :: post
    ∧ stock_return df stock = Some (Fin q)
    ∧ (∀ s' q', s' ∈ pre → stock_return df s' = Some (Fin q') → (q < q')%Q)
    ∧ (∀ s' q', s' ∈ post → stock_return df s' = Some (Fin q') → (q <= q')%Q).

(** Every tracked ticker that has a return has a finite one. *)
Definition finite_returns (df : DataFrame) (tracked : list string) : Prop :=
  ∀ s x, s ∈ tracked → stock_return df s = Some x → ∃ q, x = Fin q.

(** Loop invariants of the best/worst selection, after the tickers [seen]. *)
Definition best_inv (df : DataFrame) (seen : list string) (st : BestWorst)
  : Prop :=
  (best_stock st = None ∧ best_return st = NInf
   ∧ ∀ s, s ∈ seen → stock_return df s = None)
  ∨ (∃ s q, best_stock st = Some (s, Fin q) ∧ best_return st = Fin q
            ∧ first_maximal df seen s q).

Definition worst_inv (df : DataFrame) (seen : list string) (st : BestWorst)
  : Prop :=
  (worst_stock st = None ∧ worst_return st = PInf
   ∧ ∀ s, s ∈ seen → stock_return df s = None)
  ∨ (∃ s q, worst_stock st = Some (s, Fin q) ∧ worst_return st = Fin q
            ∧ first_minimal df seen s q).

(** A square root to six decimals, to run the model; the statements hold
    for any [np_sqrt]. *)
Definition sqrt_6 (x : float) : float :=
  match x with
  | Fin q =>
      if Qlt_bool q 0 then NaN
      else Fin (inject_Z (Z.sqrt (Qfloor (q * 1000000000000))) / 1000000)%Q
  | PInf => PInf
  | _ => NaN
  end.

(** The rows of the log are in ascending timestamp order. *)
Fixpoint time_ordered (df : DataFrame) : Prop :=
  match df with
  | a :: ((b :: _) as rest) => timestamp a ≤ timestamp b ∧ time_ordered rest
  | _ => True
  end.

(** The win rate as the specification words it: the close that decides a
    trade is the chronologically last one among the later rows of the
    ticker, whatever the row order of the log. *)
Definition winning_trades_chronological (df : DataFrame) : nat :=
  length (filter (λ t, is_winning (chronological_order df) t) (filter (λ r, is_buy r) df)).

Definition win_rate_chronological (df : DataFrame) : Q :=
  let trades := filter (λ r, is_buy r) df in
  if bool_decide (trades = []) then 0%Q
  else (inject_Z (Z.of_nat (winning_trades_chronological df))
        / inject_Z (Z.of_nat (length trades)) * 100)%Q.

(** A log whose rows are not in time order: the row of day 2 was written
    before the row of day 1. *)
Definition out_of_order_log : DataFrame :=
  [ mkRow 0 "AAPL" "BUY" (Some 1) (Some 10%Q) (Some 1) (Some 990%Q);
    mkRow 172800 "AAPL" "HOLD" (Some 0) (Some 5%Q) (Some 1) (Some 990%Q);
    mkRow 86400 "AAPL" "HOLD" (Some 0) (Some 20%Q) (Some 1) (Some 990%Q) ].

(** A log in time order, with a purchase and a checkpoint on each day. *)
Definition sample_log : DataFrame :=
  [ mkRow 0 "AAPL" "BUY" (Some 10) (Some 100%Q) (Some 10) (Some 9000%Q);
    mkRow 0 "MSFT" "HOLD" (Some 0) (Some 50%Q) None None;
    mkRow 86400 "MSFT" "BUY" (Some 20) (Some 40%Q) (Some 20) (Some 8200%Q);
    mkRow 86400 "AAPL" "HOLD" (Some 0) (Some 110%Q) (Some 10) None;
    mkRow 172800 "AAPL" "HOLD" (Some 0) (Some 120%Q) None None;
    mkRow 172800 "MSFT" "HOLD" (Some 0) (Some 30%Q) None None ].

(** AAPL's checkpoint is followed by a plain price row of AAPL. *)
Definition stale_checkpoint_log : DataFrame :=
  [ mkRow 1 "AAPL" "BUY" (Some 10) (Some 100%Q) (Some 10) (Some 5000%Q);
    mkRow 2 "AAPL" "HOLD" (Some 0) (Some 110%Q) None None ].

(** The latest checkpoint is AAPL's; MSFT's is older. *)
Definition cash_order_log : DataFrame :=
  [ mkRow 1 "MSFT" "BUY" (Some 1) (Some 10%Q) (Some 1) (Some 999%Q);
    mkRow 2 "AAPL" "BUY" (Some 1) (Some 10%Q) (Some 1) (Some 100%Q) ].

(** Price observations only: no row is a checkpoint. *)
Definition price_only_log : DataFrame :=
  [ mkRow 0 "AAPL" "HOLD" (Some 0) (Some 100%Q) None None;
    mkRow 86400 "AAPL" "HOLD" (Some 0) (Some 110%Q) (Some 10) None;
    mkRow 86400 "MSFT" "HOLD" (Some 0) (Some 40%Q) None (Some 8200%Q) ].

(** The contribution of a ticker to a bucket as the specification words it:
    last non-null position times last non-null close when both exist, 0
    otherwise. *)
Definition ticker_contribution (timestamp_data : DataFrame) (stock : string) : Q :=
  let stock_rows := filter (λ r, of_ticker stock r) timestamp_data in
  match last_non_null position_after stock_rows, last_non_null close stock_rows with
  | Some position, Some price => (inject_Z position * price)%Q
  | _, _ => 0%Q
  end.

(** The ticker has a position in the bucket but no price. *)
Definition position_without_close (timestamp_data : DataFrame) (stock : string)
  : Prop :=
  let stock_rows := filter (λ r, of_ticker stock r) timestamp_data in
  is_Some (last_non_null position_after stock_rows)
  ∧ last_non_null close stock_rows = None.

(** Case analysis on the membership of a row in a literal log. *)
Ltac each_elem H :=
  repeat (apply elem_of_cons in H as [->|H]; [try reflexivity|]);
  try (by apply elem_of_nil in H).

(** A literal log in ascending timestamp order that [sort_values] returns
    as it is. *)
Ltac sorted_literal :=
  lazymatch goal with
  | |- sorted_by_timestamp ?l (sort_values ?l) =>
      unfold sorted_by_timestamp;
      replace (sort_values l) with l by reflexivity;
      split;
      [ reflexivity
      | repeat first [ apply SSorted_nil | apply SSorted_cons
                     | apply Forall_nil_2 | apply Forall_cons_2 ];
        simpl; lia ]
  end.

(** ** Recent trades (export_dashboard.py, generate_static_dashboard.py) *)

(** [reversed(pm.trades[-n:])]: the last [n] trades, newest first.  The
    markup rendered from each trade is not modelled; [None] is the "No
    recent trades" message of [generate_recent_trades] and the absent table
    of the static dashboard. *)
Definition recent_trades (n : nat) (trades : list Trade) : option (list Trade) :=
  if bool_decide (trades = []) then None
  else Some (reverse (drop (length trades - n) trades)).

Definition generate_recent_trades (pm : PortfolioManager) : option (list Trade) :=
  recent_trades 5 (trades pm).

Definition static_recent_trades (pm : PortfolioManager) : option (list Trade) :=
  recent_trades 10 (trades pm).

(** Trades in ascending, resp. descending, order of their timestamps. *)
Definition trades_ascending (l : list Trade) : Prop :=
  StronglySorted (λ a b, trade_timestamp a ≤ trade_timestamp b) l.

Definition trades_descending (l : list Trade) : Prop :=
  StronglySorted (λ a b, trade_timestamp b ≤ trade_timestamp a) l.

(** ** Daily values of the simple dashboard (generate_dashboard.py) *)

Module GenerateDashboardDaily.

(** The index of [df.groupby(df['timestamp'].dt.date).last()]: the distinct
    dates, ascending. *)
Fixpoint insert_date (d : Z) (dates : list Z) : list Z :=
  match dates with
  | [] => [d]
  | d' :: dates' => if d <=? d' then d :: dates else d' :: insert_date d dates'
  end.

Definition sort_dates (dates : list Z) : list Z := foldr insert_date [] dates.

Definition daily_index (df : DataFrame) : list Z :=
  sort_dates (unique (floor day <$> (timestamp <$> df))).

(** [cash_val]: the last non-null [cash_after] of the day, else 0. *)
Definition cash_val (day_data : DataFrame) : Q :=
  default 0%Q (last (dropna (cash_after <$> day_data))).

(** The body of [for ticker in df['ticker'].unique()]. *)
Definition stock_val_step (day_data : DataFrame) (stock_val : Q) (ticker : string)
  : Q :=
  let ticker_data := filter (λ r, of_ticker ticker r) day_data in
  if bool_decide (ticker_data = []) then stock_val
  else
    let pos := default 0 (last (dropna (position_after <$> ticker_data))) in
    let price := default 0%Q (last (dropna (close <$> ticker_data))) in
    (stock_val + inject_Z pos * price)%Q.

Definition day_value (df : DataFrame) (date : Z) : Q :=
  let day_data := filter (λ r, in_bucket day date r) df in
  let stock_val := foldl (stock_val_step day_data) 0%Q (unique (ticker <$> df)) in
  (cash_val day_data + stock_val)%Q.

(** [portfolio_values] of [main]. *)
Definition portfolio_values (df : DataFrame) : list Q :=
  day_value df <$> daily_index df.

End GenerateDashboardDaily.

(** ** The valuation series in closed form *)

(** The value of a bucket with a cash checkpoint: the last cash plus the
    contributions of the tracked tickers; [None] for a bucket without. *)
Definition bucket_total (tracked : list string) (timestamp_data : DataFrame)
  : option Q :=
  match last_non_null cash_after timestamp_data with
  | Some latest_cash =>
      Some (foldl (λ v s, v + ticker_contribution timestamp_data s) 0 tracked
            + latest_cash)%Q
  | None => None
  end.

(** The buckets of the log, in order of first appearance. *)
Definition buckets (g : Z) (df : DataFrame) : list Z :=
  unique (floor g <$> (timestamp <$> df)).

Definition valuation_series (g : Z) (tracked : list string) (df : DataFrame)
  : list Q :=
  omap (λ b, bucket_total tracked (filter (λ r, in_bucket g b r) df))
       (buckets g df).

(** A bucket on which the valuation fails: it has a cash checkpoint and a
    tracked ticker with a position but no close. *)
Definition bad_bucket (tracked : list string) (timestamp_data : DataFrame)
  : Prop :=
  is_Some (last_non_null cash_after timestamp_data)
  ∧ Exists (position_without_close timestamp_data) tracked.

#[global] Instance position_without_close_dec timestamp_data stock :
  Decision (position_without_close timestamp_data stock).
Proof. unfold position_without_close. apply _. Defined.

#[global] Instance bad_bucket_dec tracked timestamp_data :
  Decision (bad_bucket tracked timestamp_data).
Proof. unfold bad_bucket. apply _. Defined.

(** ** Holdings and pie chart of the simple dashboard (generate_dashboard.py) *)

Module GenerateDashboardHoldings.

Record Holding : Type := mkHolding {
  h_ticker : string;
  h_shares : Z;
  h_price : float;
  h_value : float
}.

(** The entry appended to [holdings] for a row of [latest_data], if any:
    the row passes the test on [position_after] and [cash_after] and its
    position is positive. *)
Definition holding_of (kr : string * GenerateDashboard.Latest) : option Holding :=
  match GenerateDashboard.l_position_after kr.2,
        GenerateDashboard.l_cash_after kr.2 with
  | Some p, Some _ =>
      if 0 <? p
      then Some {| h_ticker := kr.1; h_shares := p;
                   h_price := cell (GenerateDashboard.l_close kr.2);
                   h_value := fmul (Fin (inject_Z p))
                                   (cell (GenerateDashboard.l_close kr.2)) |}
      else None
  | _, _ => None
  end.

Definition holdings (pd_sort : DataFrame → DataFrame) (df : DataFrame)
  : list Holding :=
  omap holding_of (GenerateDashboard.groupby_ticker_last pd_sort df).

(** [pie_values]: the values of the holdings, then the cash. *)
Definition pie_values (pd_sort : DataFrame → DataFrame) (df : DataFrame)
  : list float :=
  (h_value <$> holdings pd_sort df)
  ++ [Fin (GenerateDashboard.latest_cash
             (GenerateDashboard.groupby_ticker_last pd_sort df))].

End GenerateDashboardHoldings.

(** Every ticker counted in the total has a known price and no short
    position. *)
Definition long_and_priced (latest_data : list (string * GenerateDashboard.Latest))
  : Prop :=
  ∀ kr p, kr ∈ latest_data →
          GenerateDashboard.l_position_after kr.2 = Some p →
          is_Some (GenerateDashboard.l_cash_after kr.2) →
          0 ≤ p ∧ is_Some (GenerateDashboard.l_close kr.2).

(** ** Further sample inputs *)

(** Positions and prices, no cash anywhere. *)
Definition no_cash_log : DataFrame :=
  [ mkRow 0 "AAPL" "BUY" (Some 10) None (Some 10) None;
    mkRow 86400 "AAPL" "HOLD" (Some 0) (Some 110%Q) (Some 10) None ].

(** A purchase that is the last row of its ticker. *)
Definition last_buy_log : DataFrame :=
  [ mkRow 0 "AAPL" "HOLD" (Some 0) (Some 100%Q) None (Some 1000%Q);
    mkRow 86400 "AAPL" "BUY" (Some 1) (Some 90%Q) (Some 1) (Some 910%Q) ].

(** Six purchases, one a day. *)
Definition six_trades : list Trade :=
  (λ n, {| trade_timestamp := 86400 * n; trade_stock := "AAPL";
           trade_shares := 1; trade_price := Fin 100;
           trade_total_cost := Fin 100 |}) <$> [1; 2; 3; 4; 5; 6].

(** ** Price chart (export_dashboard.py, generate_static_dashboard.py) *)

Definition colors : list string :=
  ["#e74c3c"; "#3498db"; "#2ecc71"; "#f39c12"; "#9b59b6"]%string.

(** [l[i]] for a non-negative index: raises IndexError out of range. *)
Definition list_index {A} (l : list A) (i : nat) : exc A :=
  match l !! i with Some a => Ok a | None => Raise IndexError end.

(** One line of the chart: the ticker, its timestamps and closes in row
    order, and the colour of the line.  The chart options that do not
    depend on the data are left out. *)
Record PriceTrace : Type := mkPriceTrace {
  trace_name : string;
  trace_x : list Z;
  trace_y : list (option Q);
  trace_color : string
}.

(** [for i, stock in enumerate(pm.stocks)], from index [i] on. *)
Fixpoint prices_loop (df : DataFrame) (i : nat) (tracked : list string)
  : exc (list PriceTrace) :=
  match tracked with
  | [] => mret []
  | stock :: rest =>
      let stock_data := filter (λ r, of_ticker stock r) df in
      if bool_decide (stock_data = []) then prices_loop df (S i) rest
      else
        color ← list_index colors (i `mod` length colors);
        data ← prices_loop df (S i) rest;
        mret ({| trace_name := stock;
                 trace_x := timestamp <$> stock_data;
                 trace_y := close <$> stock_data;
                 trace_color := color |} :: data)
  end.

(** [None] is the empty chart ['{}'] returned for an empty frame. *)
Definition create_prices_chart (pm : PortfolioManager) (df : DataFrame)
  : exc (option (list PriceTrace)) :=
  if bool_decide (df = []) then mret None
  else data ← prices_loop df 0 (stocks pm); mret (Some data).

(** A log of 20 rows, five a day.  On the last day GOOG has checkpoints
    with positions 15 to 18 and cash 1015 to 1018, in that order, followed
    by a row of MSFT. *)
Definition tie_log : DataFrame :=
  ((λ i, mkRow (86400 * (i / 5)) "GOOG" "HOLD" None (Some 100%Q) None None)
     <$> seqZ 0 15)
  ++ ((λ i, mkRow 259200 "GOOG" "HOLD" None (Some 100%Q)
                  (Some i) (Some (inject_Z (1000 + i))))
        <$> seqZ 15 4)
  ++ [ mkRow 259200 "MSFT" "HOLD" None (Some 50%Q) (Some 5) None ].

Definition tie_pm : PortfolioManager :=
  {| stocks := ["GOOG"; "MSFT"]%string; portfolio := ∅; cash := 10000;
     trades := []; initial_value := 10000 |}.

(** The running peak at each point of a series, the point itself included:
    [P = max(P, v_i)], from the initial peak on. *)
Fixpoint running_peaks (peak : Q) (values : list Q) : list Q :=
  match values with
  | [] => []
  | v :: rest =>
      let peak := if Qlt_bool peak v then v else peak in
      peak :: running_peaks peak rest
  end.

(** The largest of the drawdowns observed, 0 if none is positive; a NaN is
    never larger. *)
Definition largest_drawdown (dds : list float) : float :=
  foldl (λ max_dd dd, if fgt dd max_dd then dd else max_dd) (Fin 0) dds.

(** Not below 0, and not NaN. *)
Definition at_least_zero (x : float) : Prop :=
  x = PInf ∨ ∃ d, x = Fin d ∧ (0 <= d)%Q.



(** ** Rebuilt trades *)

(** The dictionary built from a BUY row whose quantity is [shares]. *)
Definition trade_with (row : Row) (shares : Z) : Trade :=
  {| trade_timestamp := timestamp row;
     trade_stock := ticker row;
     trade_shares := shares;
     trade_price := cell (close row);
     trade_total_cost := fmul (Fin (inject_Z shares)) (cell (close row)) |}.

(** The same for a row that has a quantity. *)
Definition trade_of_buy (row : Row) : Trade :=
  trade_with row (default 0 (quantity row)).

(** No two different rows of the log share a timestamp. *)
Definition distinct_timestamps (df : DataFrame) : Prop :=
  ∀ r1 r2, r1 ∈ df → r2 ∈ df → timestamp r1 = timestamp r2 → r1 = r2.

(** A BUY row without a quantity, before the checkpoint of day 1. *)
Definition null_quantity_log : DataFrame :=
  [ mkRow 0 "AAPL" "BUY" None (Some 100%Q) None None;
    mkRow 86400 "AAPL" "HOLD" (Some 0) (Some 110%Q) (Some 10) (Some 9000%Q) ].

(** A portfolio manager that holds one trade from an earlier run. *)
Definition stale_pm : PortfolioManager :=
  {| stocks := ["AAPL"]%string; portfolio := ∅; cash := 10000;
     trades := [mkTrade 0 "AAPL" 7 (Fin 100) (Fin 700)];
     initial_value := 10000 |}.

(** The rows of [out_of_order_log], in time order. *)
Definition in_order_log : DataFrame :=
  [ mkRow 0 "AAPL" "BUY" (Some 1) (Some 10%Q) (Some 1) (Some 990%Q);
    mkRow 86400 "AAPL" "HOLD" (Some 0) (Some 20%Q) (Some 1) (Some 990%Q);
    mkRow 172800 "AAPL" "HOLD" (Some 0) (Some 5%Q) (Some 1) (Some 990%Q) ].

(** ** Purchases without a later price *)

(** The BUY row [trade] has a later row of its ticker: [future_prices] is
    not empty. *)
Definition followed (df : DataFrame) (trade : Row) : bool :=
  match future_prices df trade with
  | [] => false
  | _ => true
  end.

(** A winning purchase, then a purchase that is the last row of its
    ticker. *)
Definition unfollowed_buy_log : DataFrame :=
  [ mkRow 0 "AAPL" "BUY" (Some 1) (Some 100%Q) (Some 1) (Some 900%Q);
    mkRow 86400 "AAPL" "HOLD" (Some 0) (Some 110%Q) (Some 1) (Some 900%Q);
    mkRow 172800 "AAPL" "BUY" (Some 1) (Some 105%Q) (Some 2) (Some 795%Q) ].

(** * Properties *)

(** ** Sorting by timestamp *)

Lemma insert_by_timestamp_perm r df : insert_by_timestamp r df ≡ₚ r :: df.
Proof.
  induction df as [|r' df IH]; simpl; [done|].
  destruct (timestamp r <=? timestamp r'); [done|].
  rewrite IH. apply Permutation_swap.
Qed.

Lemma chronological_order_perm df : chronological_order df ≡ₚ df.
Proof.
  induction df as [|r df IH]; simpl; [done|].
  rewrite insert_by_timestamp_perm. by rewrite IH.
Qed.

Lemma elem_of_chronological_order r df : r ∈ chronological_order df ↔ r ∈ df.
Proof. by rewrite chronological_order_perm. Qed.

(** Stability, in the form the reconstruction needs: the rows of one
    timestamp come out in their original order. *)
Lemma filter_insert_by_timestamp t r df :
  filter (λ x, at_timestamp t x) (insert_by_timestamp r df)
  = filter (λ x, at_timestamp t x) (r :: df).
Proof.
  induction df as [|r' df IH]; simpl; [done|].
  destruct (timestamp r <=? timestamp r') eqn:Hle; [done|].
  apply Z.leb_gt in Hle.
  rewrite filter_cons, IH, !filter_cons.
  unfold at_timestamp.
  destruct (decide (timestamp r' =? t)) as [H1|H1];
    destruct (decide (timestamp r =? t)) as [H2|H2]; try done.
  apply Is_true_true, Z.eqb_eq in H1. apply Is_true_true, Z.eqb_eq in H2. lia.
Qed.

Lemma filter_chronological_order t df :
  filter (λ x, at_timestamp t x) (chronological_order df)
  = filter (λ x, at_timestamp t x) df.
Proof.
  induction df as [|r df IH]; simpl; [done|].
  rewrite filter_insert_by_timestamp, !filter_cons, IH. done.
Qed.

Lemma series_max_spec s m :
  series_max s = Some m → m ∈ s ∧ ∀ x, x ∈ s → x ≤ m.
Proof.
  destruct s as [|x s]; [done|]. simpl. intros [= <-].
  revert x. induction s as [|y s IH]; intros x; simpl.
  - split; [set_solver|]. intros z Hz. apply list_elem_of_singleton in Hz. lia.
  - destruct (IH (Z.max x y)) as [Hin Hmax]. split.
    + apply elem_of_cons in Hin as [Heq|Hin]; [|set_solver].
      rewrite Heq. destruct (Z.max_spec x y) as [[_ ->]|[_ ->]]; set_solver.
    + intros z Hz.
      assert (Hxy : Z.max x y ≤ foldl Z.max (Z.max x y) s) by (apply Hmax; set_solver).
      apply elem_of_cons in Hz as [->|Hz]; [lia|].
      apply elem_of_cons in Hz as [->|Hz]; [lia|].
      apply Hmax. set_solver.
Qed.

(** ** State reconstruction *)

Lemma dropna_app {A} (s1 s2 : list (option A)) :
  dropna (s1 ++ s2) = dropna s1 ++ dropna s2.
Proof. apply omap_app. Qed.

Lemma elem_of_dropna {A} (s : list (option A)) (a : A) :
  a ∈ dropna s ↔ Some a ∈ s.
Proof.
  unfold dropna. rewrite list_elem_of_omap. split.
  - intros (x & Hx & Hid). simpl in Hid. by subst.
  - intros H. by exists (Some a).
Qed.

Lemma last_non_null_snoc {A} (column : Row → option A) rows r :
  last_non_null column (rows ++ [r])
  = match column r with
    | Some a => Some a
    | None => last_non_null column rows
    end.
Proof.
  unfold last_non_null. rewrite fmap_app, dropna_app. simpl.
  destruct (column r); simpl.
  - apply last_snoc.
  - by rewrite app_nil_r.
Qed.

Lemma new_portfolio_lookup rows k :
  ExportDashboard.new_portfolio rows !! k
  = last_non_null position_after (filter (λ r, of_ticker k r) rows).
Proof.
  induction rows as [|r rows IH] using rev_ind.
  - done.
  - unfold ExportDashboard.new_portfolio in *. rewrite foldl_app. simpl.
    rewrite filter_app, filter_cons, filter_nil.
    destruct (decide _) as [Hk|Hk]; simpl in Hk; unfold of_ticker in Hk.
    + apply bool_decide_unpack in Hk. rewrite last_non_null_snoc.
      destruct (position_after r); [|done].
      subst k. apply lookup_insert_eq.
    + rewrite app_nil_r.
      assert (ticker r ≠ k) by (intros Heq; apply Hk; by apply bool_decide_pack).
      destruct (position_after r); [|done].
      by rewrite lookup_insert_ne.
Qed.

Lemma portfolio_loop_lookup (np m : gmap string Z) (tracked : list string) k :
  foldl (λ m stock, <[stock := default 0 (np !! stock)]> m) m tracked !! k
  = if decide (k ∈ tracked) then Some (default 0 (np !! k)) else m !! k.
Proof.
  revert m. induction tracked as [|s tracked IH]; intros m; cbn [foldl].
  - case_decide; [set_solver|done].
  - rewrite IH. destruct (decide (k = s)) as [->|Hne].
    + repeat case_decide; try done; try set_solver. apply lookup_insert_eq.
    + rewrite lookup_insert_ne by done.
      repeat case_decide; try done; set_solver.
Qed.

Lemma elem_of_sorted df sorted r :
  sorted_by_timestamp df sorted → r ∈ sorted ↔ r ∈ df.
Proof. intros [Hperm _]. by rewrite Hperm. Qed.

Lemma last_non_null_Some {A} (column : Row → option A) rows a :
  last_non_null column rows = Some a → ∃ r, r ∈ rows ∧ column r = Some a.
Proof.
  unfold last_non_null. intros Hl.
  apply last_Some_elem_of, elem_of_dropna, list_elem_of_fmap in Hl
    as (r & Hc & Hr).
  by exists r.
Qed.

Lemma last_non_null_None {A} (column : Row → option A) rows r :
  last_non_null column rows = None → r ∈ rows → column r = None.
Proof.
  unfold last_non_null. intros Hl Hr. apply last_None in Hl.
  destruct (column r) as [a|] eqn:Hc; [|done].
  assert (Hin : a ∈ dropna (column <$> rows)).
  { apply elem_of_dropna, list_elem_of_fmap. by exists r. }
  rewrite Hl in Hin. by apply elem_of_nil in Hin.
Qed.

Lemma latest_timestamp_is_max csv sorted T :
  sorted ≡ₚ csv →
  max_checkpoint_timestamp csv T →
  series_max (timestamp <$> filter (λ r, is_checkpoint r) sorted) = Some T.
Proof.
  intros Hperm [(r & Hr & Hck & Ht) Hmax].
  assert (Hin : r ∈ filter (λ r, is_checkpoint r) sorted).
  { apply list_elem_of_filter. split; [by rewrite Hck|by rewrite Hperm]. }
  destruct (series_max _) as [m|] eqn:Hm.
  - apply series_max_spec in Hm as [Hmin Hmmax]. f_equal.
    apply list_elem_of_fmap in Hmin as (r' & -> & Hr').
    apply list_elem_of_filter in Hr' as [Hck' Hr'].
    rewrite Hperm in Hr'.
    assert (timestamp r' ≤ T) by (apply Hmax; [done|by apply Is_true_true]).
    assert (timestamp r ≤ timestamp r').
    { apply Hmmax. apply list_elem_of_fmap. by exists r. }
    lia.
  - destruct (filter _ sorted); [by apply elem_of_nil in Hin|done].
Qed.

(** The cash column of the rows at [T] is not empty. *)
Lemma latest_cash_exists csv sorted T :
  sorted ≡ₚ csv →
  max_checkpoint_timestamp csv T →
  ∃ c, last_non_null cash_after (filter (λ r, at_timestamp T r) sorted) = Some c.
Proof.
  intros Hperm [(r & Hr & Hck & Ht) _].
  unfold is_checkpoint in Hck.
  destruct (position_after r); [|done].
  destruct (cash_after r) as [c|] eqn:Hc; [|done].
  assert (Hin : c ∈ dropna (cash_after <$> filter (λ r, at_timestamp T r) sorted)).
  { apply elem_of_dropna, list_elem_of_fmap. exists r. split; [done|].
    apply list_elem_of_filter. split; [|by rewrite Hperm].
    unfold at_timestamp. apply Is_true_true, Z.eqb_eq. done. }
  unfold last_non_null.
  destruct (last _) as [c'|] eqn:Hl; [by exists c'|].
  apply last_None in Hl. rewrite Hl in Hin. by apply elem_of_nil in Hin.
Qed.

Lemma time_ordered_sorted df :
  time_ordered df → StronglySorted (λ a b, timestamp a ≤ timestamp b) df.
Proof.
  intros Hord. apply Sorted_StronglySorted; [intros a b c; lia|].
  induction df as [|a df IH]; [constructor|].
  destruct df as [|b df]; [by repeat constructor|].
  destruct Hord as [Hab Hord]. constructor; [by apply IH|by constructor].
Qed.

(** An indexer that is a permutation of the row positions takes every row
    once. *)
Lemma take_rows_seq (pre df : DataFrame) :
  omap (λ i, (pre ++ df) !! i) (seq (length pre) (length df)) = df.
Proof.
  revert pre. induction df as [|r df IH]; intros pre; [done|].
  simpl. rewrite list_lookup_middle by done. simpl. f_equal.
  specialize (IH (pre ++ [r])). rewrite length_app in IH.
  rewrite <- (assoc_L (++)) in IH.
  simpl in IH. rewrite Nat.add_1_r in IH. exact IH.
Qed.

Lemma take_rows_perm df indexer :
  indexer ≡ₚ seq 0 (length df) → take_rows df indexer ≡ₚ df.
Proof.
  intros Hperm. unfold take_rows. rewrite Hperm.
  pose proof (take_rows_seq [] df) as Heq. simpl in Heq. by rewrite Heq.
Qed.

(** numpy's sort does sort the 20 rows of [tie_log]. *)
Lemma tie_log_sorted : sorted_by_timestamp tie_log (sort_values tie_log).
Proof.
  split.
  - unfold sort_values.
    destruct (Numpy.argsort (timestamp <$> tie_log)) as [indexer|] eqn:Hi;
      [|apply chronological_order_perm].
    apply take_rows_perm.
    vm_compute in Hi. injection Hi as <-.
    apply (bool_decide_unpack _). vm_compute. exact I.
  - apply time_ordered_sorted. vm_compute. repeat split; discriminate.
Qed.

Lemma tie_log_latest : max_checkpoint_timestamp tie_log 259200.
Proof.
  split.
  - exists (mkRow 259200 "GOOG" "HOLD" None (Some 100%Q) (Some 15) (Some 1015%Q)).
    split; [|split; reflexivity].
    unfold tie_log. rewrite !elem_of_app. right; left.
    apply list_elem_of_fmap. exists 15. split; [reflexivity|].
    apply elem_of_seqZ. lia.
  - intros r Hr _. revert r Hr. apply Forall_forall.
    apply (bool_decide_unpack _). vm_compute. exact I.
Qed.

(** C9.  For every log that contains no checkpoint row, reconstruction
    leaves the portfolio manager exactly as the caller supplied it
    (positions, cash and trades), and no exception escapes: the function
    is total.  This holds whatever sort runs. *)
Theorem recalculate_without_checkpoint pd_sort pm csv :
  sorted_by_timestamp csv (pd_sort csv) →
  (∀ r, r ∈ csv → is_checkpoint r = false) →
  ExportDashboard.recalculate_portfolio_from_csv pd_sort pm csv = pm.
Proof.
  intros Hsorted Hnone. unfold ExportDashboard.recalculate_portfolio_from_csv.
  assert (Hempty : filter (λ r, is_checkpoint r) (pd_sort csv) = []).
  { destruct (filter _ (pd_sort csv)) as [|r l] eqn:Hf; [done|].
    assert (Hr : r ∈ filter (λ r, is_checkpoint r) (pd_sort csv))
      by (rewrite Hf; set_solver).
    apply list_elem_of_filter in Hr as [Hck Hr].
    rewrite (elem_of_sorted _ _ _ Hsorted) in Hr. simpl in Hck.
    by rewrite (Hnone r Hr) in Hck. }
  by rewrite Hempty.
Qed.

(** C1, counterexample: the 20 rows of [tie_log], whose latest checkpoint
    timestamp is day 3.  In the original order the last checkpoint of GOOG
    on that day has position 18 and cash 1018.  numpy's sort leaves the
    rows of that day in the order 18, 15, 16, 17, 19, and the code sets
    position 17 and cash 1017. *)
Lemma recalculate_tie_order_counterexample :
  let rows_at_T := filter (λ r, at_timestamp 259200 r) tie_log in
  let pm' := ExportDashboard.recalculate_portfolio_from_csv sort_values tie_pm tie_log in
  max_checkpoint_timestamp tie_log 259200
  ∧ Numpy.argsort (timestamp <$> tie_log)
    = Some [0; 1; 2; 3; 4; 8; 7; 9; 5; 6; 10; 11; 12; 13; 14; 18; 15; 16; 17; 19]%nat
  ∧ sorted_by_timestamp tie_log (sort_values tie_log)
  ∧ last_non_null position_after (filter (λ r, of_ticker "GOOG" r) rows_at_T)
    = Some 18
  ∧ portfolio pm' !! "GOOG"%string = Some 17
  ∧ last_non_null cash_after rows_at_T = Some 1018%Q
  ∧ cash pm' = 1017%Q.
Proof.
  split; [apply tie_log_latest|]. split; [reflexivity|].
  split; [apply tie_log_sorted|]. repeat split; reflexivity.
Qed.

(** C1, amended.  For every log with a checkpoint row, with [T] the largest
    checkpoint timestamp: reconstruction considers exactly the rows with
    timestamp [T].  The share count of every tracked ticker becomes the
    non-null [position_after] of one of the ticker's rows at [T], the last
    one in the order in which the sort leaves the rows at [T], and 0 if the
    ticker has none; cash becomes the non-null [cash_after] of one of the
    rows at [T], chosen the same way.  The sort need not keep the original
    order of the rows at [T]; when it does, these are the values of the
    last such rows in original insertion order. *)
Theorem recalculate_from_latest_checkpoint pd_sort pm csv T :
  sorted_by_timestamp csv (pd_sort csv) →
  max_checkpoint_timestamp csv T →
  let rows_at_T := filter (λ r, at_timestamp T r) csv in
  let sorted_at_T := filter (λ r, at_timestamp T r) (pd_sort csv) in
  let pm' := ExportDashboard.recalculate_portfolio_from_csv pd_sort pm csv in
  sorted_at_T ≡ₚ rows_at_T
  ∧ (∀ stock, stock ∈ stocks pm →
       portfolio pm' !! stock
       = Some (default 0 (last_non_null position_after
                            (filter (λ r, of_ticker stock r) sorted_at_T)))
       ∧ ∃ p, portfolio pm' !! stock = Some p
            ∧ ((∃ r, r ∈ rows_at_T ∧ ticker r = stock ∧ position_after r = Some p)
               ∨ (p = 0 ∧ ∀ r, r ∈ rows_at_T → ticker r = stock →
                               position_after r = None)))
  ∧ last_non_null cash_after sorted_at_T = Some (cash pm')
  ∧ (∃ r, r ∈ rows_at_T ∧ cash_after r = Some (cash pm'))
  ∧ (sorted_at_T = rows_at_T →
     (∀ stock, stock ∈ stocks pm →
        portfolio pm' !! stock
        = Some (default 0 (last_non_null position_after
                             (filter (λ r, of_ticker stock r) rows_at_T))))
     ∧ last_non_null cash_after rows_at_T = Some (cash pm')).
Proof.
  intros Hsorted HT rows_at_T sorted_at_T pm'.
  destruct Hsorted as [Hperm Hsort].
  assert (HpermT : sorted_at_T ≡ₚ rows_at_T).
  { subst sorted_at_T rows_at_T. by rewrite Hperm. }
  destruct (latest_cash_exists csv (pd_sort csv) T Hperm HT) as [c Hc].
  fold sorted_at_T in Hc.
  assert (Hpos : ∀ stock, stock ∈ stocks pm →
            portfolio pm' !! stock
            = Some (default 0 (last_non_null position_after
                                 (filter (λ r, of_ticker stock r) sorted_at_T)))).
  { intros stock Hstock. subst pm'.
    unfold ExportDashboard.recalculate_portfolio_from_csv.
    rewrite (latest_timestamp_is_max _ _ _ Hperm HT). fold sorted_at_T.
    unfold last_non_null in Hc. unfold iloc_last. rewrite Hc.
    cbn [portfolio]. rewrite portfolio_loop_lookup. case_decide; [|done].
    by rewrite new_portfolio_lookup. }
  assert (Hcash : cash pm' = c).
  { subst pm'. unfold ExportDashboard.recalculate_portfolio_from_csv.
    rewrite (latest_timestamp_is_max _ _ _ Hperm HT). fold sorted_at_T.
    unfold last_non_null in Hc. unfold iloc_last. by rewrite Hc. }
  split; [done|]. split; [|split; [|split]].
  - intros stock Hstock. split; [by apply Hpos|]. rewrite (Hpos stock Hstock).
    destruct (last_non_null position_after _) as [p|] eqn:Hp.
    + exists p. split; [done|]. left.
      apply last_non_null_Some in Hp as (r & Hr & Hrp).
      apply list_elem_of_filter in Hr as [Htk Hr].
      unfold of_ticker in Htk. apply bool_decide_unpack in Htk.
      rewrite HpermT in Hr. by exists r.
    + exists 0. split; [done|]. right. split; [done|]. intros r Hr Htk.
      apply (last_non_null_None position_after _ r Hp).
      apply list_elem_of_filter. split; [|by rewrite HpermT].
      unfold of_ticker. by apply bool_decide_pack.
  - by rewrite Hcash.
  - rewrite Hcash. apply last_non_null_Some in Hc as (r & Hr & Hrc).
    exists r. split; [by rewrite <- HpermT|done].
  - intros Heq. rewrite <- Heq. split; [done|]. by rewrite Hcash.
Qed.

(** ** Valuation of a bucket *)

(** What one stock adds to [stock_value], in terms of the last non-null
    position and the last non-null close of its rows in the bucket. *)
Lemma stock_contribution_spec timestamp_data stock :
  let stock_rows := filter (λ r, of_ticker stock r) timestamp_data in
  stock_contribution timestamp_data stock
  = match last_non_null position_after stock_rows,
          last_non_null close stock_rows with
    | Some position, Some price => Ok (inject_Z position * price)%Q
    | Some _, None => Raise IndexError
    | None, _ => Ok 0%Q
    end.
Proof.
  intros stock_rows. unfold stock_contribution. fold stock_rows.
  unfold last_non_null, iloc_last.
  assert (Hna : isna_all (position_after <$> stock_rows)
                = bool_decide (dropna (position_after <$> stock_rows) = [])).
  { induction stock_rows as [|r l IH]; [done|]. simpl.
    destruct (position_after r); simpl; [done|]. apply IH. }
  rewrite Hna.
  destruct (last (dropna (position_after <$> stock_rows))) as [p|] eqn:Hp.
  - assert (Hne : dropna (position_after <$> stock_rows) ≠ [])
      by (intros Heq; by rewrite Heq in Hp).
    assert (stock_rows ≠ []) by (intros Heq; apply Hne; by rewrite Heq).
    rewrite !bool_decide_eq_false_2 by done.
    simpl. by destruct (last (dropna (close <$> stock_rows))).
  - apply last_None in Hp. rewrite Hp. by rewrite andb_false_r.
Qed.

(** Outside that case the loop adds up the contributions of the
    specification and the bucket is cash plus holdings. *)
Lemma stock_value_loop_ok timestamp_data tracked stock_value :
  (∀ s, s ∈ tracked → ¬ position_without_close timestamp_data s) →
  stock_value_loop timestamp_data tracked stock_value
  = Ok (foldl (λ v s, v + ticker_contribution timestamp_data s)%Q
              stock_value tracked).
Proof.
  revert stock_value.
  induction tracked as [|s tracked IH]; intros stock_value Hok; [done|].
  cbn [stock_value_loop foldl].
  assert (Hs : stock_contribution timestamp_data s
               = Ok (ticker_contribution timestamp_data s)).
  { rewrite stock_contribution_spec. unfold ticker_contribution.
    assert (Hnot : ¬ position_without_close timestamp_data s)
      by (apply Hok; set_solver).
    unfold position_without_close in Hnot.
    destruct (last_non_null position_after _) as [p|]; [|done].
    destruct (last_non_null close _) as [c|]; [done|].
    exfalso. apply Hnot. by split. }
  rewrite Hs. cbn [mbind exc_bind]. apply IH.
  intros s' Hs'. apply Hok. set_solver.
Qed.

Lemma stock_value_loop_raises timestamp_data tracked stock_value :
  (∃ s, s ∈ tracked ∧ position_without_close timestamp_data s) →
  stock_value_loop timestamp_data tracked stock_value = Raise IndexError.
Proof.
  revert stock_value.
  induction tracked as [|s tracked IH]; intros stock_value (s' & Hin & Hbad).
  - by apply elem_of_nil in Hin.
  - cbn [stock_value_loop]. rewrite stock_contribution_spec. cbn zeta.
    destruct (decide (position_without_close timestamp_data s)) as [Hs|Hs].
    + destruct Hs as [[p Hp] Hc]. by rewrite Hp, Hc.
    + assert (Hin' : s' ∈ tracked).
      { apply elem_of_cons in Hin as [->|Hin]; done. }
      unfold position_without_close in Hs. cbn zeta in Hs.
      destruct (last_non_null position_after _) as [p|];
        [destruct (last_non_null close _) as [c|]|];
        cbn [mbind exc_bind]; try (apply IH; by exists s').
      exfalso. apply Hs. by split.
Qed.

Lemma bucket_value_emitted tracked timestamp_data cash_value :
  last_non_null cash_after timestamp_data = Some cash_value →
  (∀ s, s ∈ tracked → ¬ position_without_close timestamp_data s) →
  bucket_value tracked timestamp_data
  = Ok (Some (foldl (λ v s, v + ticker_contribution timestamp_data s) 0 tracked
              + cash_value)%Q).
Proof.
  intros Hcash Hok. unfold bucket_value.
  assert (Hna : isna_all (cash_after <$> timestamp_data) = false).
  { unfold last_non_null in Hcash. clear Hok.
    induction timestamp_data as [|r l IH]; [done|]. simpl.
    destruct (cash_after r) eqn:Hr; [done|]. simpl.
    apply IH. rewrite fmap_cons, Hr in Hcash. exact Hcash. }
  rewrite Hna. unfold last_non_null in Hcash. unfold iloc_last.
  rewrite Hcash. cbn [mbind exc_bind].
  by rewrite stock_value_loop_ok.
Qed.

(** C2, at the failing input: a bucket whose AAPL row has a position and a
    cash checkpoint but a null close.  The claim has the ticker contribute
    0; the code raises [IndexError] from [dropna().iloc[-1]] on the empty
    close column, in the bucket valuation and in both metrics functions. *)
Theorem null_close_bucket_raises np_sqrt :
  stock_contribution (take 1 null_close_log) "AAPL" = Raise IndexError ∧
  bucket_value (stocks sample_pm) (take 1 null_close_log) = Raise IndexError ∧
  ExportDashboard.calculate_performance_metrics np_sqrt sample_pm null_close_log
  = Raise IndexError ∧
  StaticDashboard.calculate_performance_metrics np_sqrt null_close_log sample_pm
  = Raise IndexError.
Proof. repeat split; reflexivity. Qed.

(** ** Period returns *)

Lemma returns_cons v0 v1 rest :
  returns (v0 :: v1 :: rest)
  = fdiv (fsub (Fin v1) (Fin v0)) (Fin v0) :: returns (v1 :: rest).
Proof. done. Qed.

Lemma returns_lookup values i v0 v1 :
  values !! i = Some v0 → values !! S i = Some v1 →
  returns values !! i = Some (fdiv (Fin (v1 - v0)) (Fin v0)).
Proof.
  revert i. induction values as [|a values IH]; intros i H0 H1; [done|].
  destruct values as [|b values]; [done|].
  rewrite returns_cons. destruct i as [|i].
  - simpl in *. by simplify_eq.
  - simpl in H0, H1. simpl. by apply IH.
Qed.


(** C3, counterexample: after a zero valuation the step is not 0. *)
Lemma returns_zero_prior_counterexample :
  returns [0; 5]%Q = [PInf] ∧ returns [0; 0]%Q = [NaN] ∧
  returns [0; 5]%Q ≠ [Fin 0].
Proof. repeat split; done. Qed.

(** C3, amended.  The period return at each step is
    [(v_i - v_{i-1}) / v_{i-1}] when the prior value is not zero.  When the
    prior value is zero the division is not guarded: the step is the IEEE
    quotient, an infinity of the sign of [v_i] or NaN when [v_i] is zero
    too; it is not finite, and nothing is raised. *)
Theorem returns_step values i v0 v1 :
  values !! i = Some v0 → values !! S i = Some v1 →
  (¬ (v0 == 0)%Q → returns values !! i = Some (Fin ((v1 - v0) / v0)))
  ∧ ((v0 == 0)%Q →
       returns values !! i = Some (inf_of_sign (v1 - v0 ?= 0)%Q)
       ∧ ∀ q, returns values !! i ≠ Some (Fin q)).
Proof.
  intros H0 H1. rewrite (returns_lookup _ _ _ _ H0 H1). unfold fdiv.
  split; intros Hv0.
  - destruct (Qeq_bool v0 0) eqn:E; [|done].
    by apply Qeq_bool_iff in E.
  - apply Qeq_bool_iff in Hv0. rewrite Hv0. split; [done|].
    intros q. by destruct (v1 - v0 ?= 0)%Q.
Qed.

(** ** Maximum drawdown *)

Lemma Qlt_bool_true a b : Qlt_bool a b = true ↔ (a < b)%Q.
Proof.
  unfold Qlt_bool. rewrite negb_true_iff. split.
  - intros H. apply Qnot_le_lt. intros Hle.
    apply Qle_bool_iff in Hle. congruence.
  - intros H. destruct (Qle_bool b a) eqn:E; [|done].
    apply Qle_bool_iff in E. lra.
Qed.

Lemma Qlt_bool_false a b : Qlt_bool a b = false ↔ (b <= a)%Q.
Proof.
  unfold Qlt_bool. rewrite negb_false_iff. apply Qle_bool_iff.
Qed.

Lemma Qeq_bool_false a b : Qeq_bool a b = false ↔ ¬ (a == b)%Q.
Proof.
  split.
  - intros H Heq. apply Qeq_bool_iff in Heq. congruence.
  - intros H. destruct (Qeq_bool a b) eqn:E; [|done].
    by apply Qeq_bool_iff in E.
Qed.

Lemma Qzero_div_scaled a b : (a == 0)%Q → (a / b * 100 == 0)%Q.
Proof. intros H. rewrite H. unfold Qdiv. ring. Qed.

(** The drawdown of a point at or below a positive peak is a percentage. *)
Lemma drawdown_percentage peak v :
  (0 < peak)%Q → (0 <= v)%Q → (v <= peak)%Q →
  (0 <= (peak - v) / peak * 100 ∧ (peak - v) / peak * 100 <= 100)%Q.
Proof.
  intros Hp Hv Hle.
  assert (H0 : (0 <= (peak - v) / peak)%Q)
    by (apply Qle_shift_div_l; [done|lra]).
  assert (H1 : ((peak - v) / peak <= 1)%Q)
    by (apply Qle_shift_div_r; [done|lra]).
  split; lra.
Qed.

Lemma drawdown_of_finite peak v :
  ¬ (peak == 0)%Q → drawdown_of peak v = Fin ((peak - v) / peak * 100).
Proof.
  intros Hp. apply Qeq_bool_false in Hp. unfold drawdown_of. simpl.
  by rewrite Hp.
Qed.

Lemma drawdown_of_zero_peak peak v :
  (peak == 0)%Q →
  drawdown_of peak v
  = match (peak - v ?= 0)%Q with Eq => NaN | Lt => NInf | Gt => PInf end.
Proof.
  intros Hp. apply Qeq_bool_iff in Hp. unfold drawdown_of. simpl.
  rewrite Hp. by destruct (peak - v ?= 0)%Q.
Qed.

Lemma drawdown_of_self v : fgt (drawdown_of v v) (Fin 0) = false
                           ∧ ∀ m, (0 <= m)%Q → fgt (drawdown_of v v) (Fin m) = false.
Proof.
  assert (H : ∀ m, (0 <= m)%Q → fgt (drawdown_of v v) (Fin m) = false).
  { intros m Hm. destruct (Qeq_dec v 0) as [Hv|Hv].
    - rewrite drawdown_of_zero_peak by done.
      assert (Hs : (v - v ?= 0)%Q = Eq) by (apply -> Qeq_alt; ring).
      by rewrite Hs.
    - rewrite drawdown_of_finite by done. unfold fgt. simpl.
      apply Qlt_bool_false. rewrite Qzero_div_scaled; [lra|ring]. }
  split; [apply H; lra|done].
Qed.

Lemma drawdown_step_inv st v :
  drawdown_inv st → (0 <= v)%Q →
  drawdown_inv (drawdown_step st v)
  ∧ drawdown_step st v = drawdown_step_spec st v.
Proof.
  destruct st as [peak max_dd]. intros (m & Hm & Hm0 & Hm100 & Hpeak) Hv.
  cbn [fst snd] in Hm, Hpeak. subst max_dd.
  unfold drawdown_step, drawdown_step_spec, drawdown_inv. cbn [fst snd].
  fold (drawdown_of peak v).
  destruct (Qlt_bool peak v) eqn:Hlt.
  - (* a new peak: the code measures the point against itself *)
    apply Qlt_bool_true in Hlt. fold (drawdown_of v v).
    destruct (drawdown_of_self v) as [_ Hself]. rewrite (Hself m Hm0).
    assert (Hspec : fgt (drawdown_of peak v) (Fin m) = false).
    { destruct (Qeq_dec peak 0) as [Hp|Hp].
      - rewrite drawdown_of_zero_peak by done.
        assert (Hs : (peak - v ?= 0)%Q = Lt) by (apply -> Qlt_alt; lra).
        by rewrite Hs.
      - rewrite drawdown_of_finite by done. unfold fgt. simpl.
        apply Qlt_bool_false.
        assert (((peak - v) / peak <= 0)%Q) by (apply Qle_shift_div_r; lra).
        lra. }
    rewrite Hspec. split; [|done].
    exists m. repeat split; try done; lra.
  - apply Qlt_bool_false in Hlt. fold (drawdown_of peak v). split; [|done].
    destruct (Qeq_dec peak 0) as [Hp|Hp].
    + rewrite drawdown_of_zero_peak by done.
      assert (Hs : (peak - v ?= 0)%Q = Eq) by (apply -> Qeq_alt; lra).
      rewrite Hs. exists m. by repeat split.
    + rewrite drawdown_of_finite by done.
      destruct (drawdown_percentage peak v) as [Hd0 Hd100]; [lra|done|done|].
      destruct (fgt _ _).
      * eexists. by repeat split.
      * exists m. by repeat split.
Qed.

Lemma drawdown_fold_inv values st :
  drawdown_inv st → Forall (λ v, (0 <= v)%Q) values →
  drawdown_inv (foldl drawdown_step st values)
  ∧ foldl drawdown_step st values = foldl drawdown_step_spec st values.
Proof.
  revert st. induction values as [|v values IH]; intros st Hinv Hnn; [done|].
  apply Forall_cons in Hnn as [Hv Hnn]. simpl.
  destruct (drawdown_step_inv st v Hinv Hv) as [Hinv' Heq].
  rewrite <- Heq. by apply IH.
Qed.

(** The first iteration of the loop sees the initial peak itself and
    changes nothing. *)
Lemma drawdown_step_first v : drawdown_step (v, Fin 0) v = (v, Fin 0).
Proof.
  unfold drawdown_step. cbn [fst snd].
  assert (Hlt : Qlt_bool v v = false) by (apply Qlt_bool_false; lra).
  rewrite Hlt. fold (drawdown_of v v).
  destruct (drawdown_of_self v) as [-> _]. done.
Qed.

Lemma drawdown_nondecreasing values peak :
  match values with [] => True | a :: _ => (peak <= a)%Q end →
  nondecreasing values →
  snd (foldl drawdown_step (peak, Fin 0) values) = Fin 0.
Proof.
  revert peak. induction values as [|a values IH]; intros peak Hle Hmono; [done|].
  cbn [foldl].
  assert (Hstep : ∃ peak', drawdown_step (peak, Fin 0) a = (peak', Fin 0)
                           ∧ (peak' == a)%Q).
  { unfold drawdown_step. cbn [fst snd].
    set (peak' := if Qlt_bool peak a then a else peak).
    assert (Hp : (peak' == a)%Q).
    { subst peak'. destruct (Qlt_bool peak a) eqn:E; [done|].
      apply Qlt_bool_false in E. lra. }
    exists peak'. split; [|done]. f_equal. fold (drawdown_of peak' a).
    assert (Hdd : fgt (drawdown_of peak' a) (Fin 0) = false).
    { destruct (Qeq_dec peak' 0) as [Hp0|Hp0].
      - rewrite drawdown_of_zero_peak by done.
        assert (Hs : (peak' - a ?= 0)%Q = Eq) by (apply -> Qeq_alt; lra).
        by rewrite Hs.
      - rewrite drawdown_of_finite by done. unfold fgt. simpl.
        apply Qlt_bool_false. rewrite Qzero_div_scaled; lra. }
    by rewrite Hdd. }
  destruct Hstep as (peak' & -> & Hp).
  apply IH.
  - destruct values as [|b values]; [done|]. destruct Hmono as [Hab _]. lra.
  - destruct values as [|b values]; [done|]. by destruct Hmono.
Qed.

(** The loop computes the largest drawdown against the running peak. *)
Lemma drawdown_fold_closed_form values peak max_dd :
  snd (foldl drawdown_step (peak, max_dd) values)
  = foldl (λ max_dd dd, if fgt dd max_dd then dd else max_dd) max_dd
          (zip_with drawdown_of (running_peaks peak values) values).
Proof.
  revert peak max_dd. induction values as [|v values IH]; intros peak max_dd; [done|].
  cbn [foldl running_peaks zip_with]. unfold drawdown_step at 2. cbn [fst snd].
  by rewrite IH.
Qed.

Lemma drawdown_step_at_least_zero st v :
  at_least_zero (snd st) → at_least_zero (snd (drawdown_step st v)).
Proof.
  intros Hm. unfold drawdown_step. cbn [snd].
  destruct (fgt _ (snd st)) eqn:Hgt; [|done].
  unfold fgt in Hgt.
  destruct (fmul _ _) as [d| | |];
    destruct Hm as [Hm|(m & Hm & Hm0)]; rewrite Hm in Hgt; try done.
  - right. exists d. split; [done|]. simpl in Hgt.
    apply Qlt_bool_true in Hgt. lra.
  - by left.
Qed.

Lemma drawdown_fold_at_least_zero values st :
  at_least_zero (snd st) → at_least_zero (snd (foldl drawdown_step st values)).
Proof.
  revert st. induction values as [|v values IH]; intros st Hm; [done|].
  cbn [foldl]. by apply IH, drawdown_step_at_least_zero.
Qed.

(** C5, counterexample: a valuation can be negative (cash is any number),
    and then the drawdown exceeds 100; and on a series of negative
    valuations the code, which raises the peak before it measures, differs
    from the drawdown measured against the peak seen before the point. *)
Lemma max_drawdown_negative_counterexample :
  (∃ d, max_drawdown [100; -50]%Q = Ok (Fin d) ∧ (d == 150)%Q ∧ ¬ (d <= 100)%Q)
  ∧ max_drawdown [-100; -50]%Q = Ok (Fin 0)
  ∧ ∃ d, max_drawdown_spec [-100; -50]%Q = Some (Fin d) ∧ (d == 50)%Q.
Proof.
  split; [|split].
  - eexists. split; [reflexivity|]. split; [reflexivity|]. by compute.
  - reflexivity.
  - eexists. split; reflexivity.
Qed.

(** C5, amended.  For every series of at least two valuations the code
    starts the running peak at the first valuation and, at each point, the
    first included, raises the peak to the point if the point is higher
    and then takes [(peak - v) / peak * 100] against that peak; the result
    is the largest value observed, 0 if none is positive.  It is never
    below 0, and it is 0 for every non-decreasing series.  When no
    valuation is negative it lies in [0, 100] and is the drawdown of the
    specification, each point measured against the peak seen before it. *)
Theorem max_drawdown_of_series values :
  (2 ≤ length values)%nat →
  ∃ peak x,
    head values = Some peak
    ∧ max_drawdown values = Ok x
    ∧ x = largest_drawdown (zip_with drawdown_of (running_peaks peak values) values)
    ∧ at_least_zero x
    ∧ (nondecreasing values → x = Fin 0)
    ∧ (Forall (λ v, (0 <= v)%Q) values →
       ∃ d, x = Fin d ∧ (d <= 100)%Q ∧ max_drawdown_spec values = Some x).
Proof.
  intros Hlen. destruct values as [|v0 rest]; [simpl in Hlen; lia|].
  exists v0, (snd (foldl drawdown_step (v0, Fin 0) (v0 :: rest))).
  split; [done|]. split; [done|]. split; [apply drawdown_fold_closed_form|].
  split; [|split].
  - apply drawdown_fold_at_least_zero. right. exists 0%Q. split; [done|lra].
  - intros Hmono. apply (drawdown_nondecreasing (v0 :: rest) v0); [lra|done].
  - intros Hnn. cbn [foldl]. rewrite drawdown_step_first.
    apply Forall_cons in Hnn as [Hv0 Hrest].
    destruct (drawdown_fold_inv rest (v0, Fin 0)) as [(d & Hd & H0 & H100 & _) Heq];
      [|done|].
    { exists 0%Q. cbn [fst snd]. repeat split; try done; lra. }
    exists d. split; [done|]. split; [done|].
    unfold max_drawdown_spec. by rewrite <- Heq.
Qed.

(** C8.  For the series [100, 120, 90, 150] the period returns are 1/5,
    -1/4 and 2/3, that is [0.20, -0.25, 0.667] to three decimals, and the
    maximum drawdown is [(120 - 90) / 120 * 100 = 25]. *)
Theorem example_series_returns_and_drawdown :
  Forall2 feq (returns [100; 120; 90; 150]%Q)
              [Fin (1 # 5); Fin (- (1 # 4)); Fin (2 # 3)]
  ∧ Forall2 feq (fround 3 <$> returns [100; 120; 90; 150]%Q)
                [Fin 0.20; Fin (-0.25); Fin 0.667]
  ∧ ∃ d, max_drawdown [100; 120; 90; 150]%Q = Ok d
         ∧ feq d (Fin ((120 - 90) / 120 * 100))
         ∧ feq d (Fin 25).
Proof.
  split; [|split].
  - repeat constructor.
  - repeat constructor.
  - eexists. split; [reflexivity|]. split; reflexivity.
Qed.

(** ** Best and worst instrument *)

Lemma best_worst_step_best df st s :
  (best_return (best_worst_step df st s), best_stock (best_worst_step df st s))
  = match stock_return df s with
    | Some ret =>
        if fgt ret (best_return st) then (ret, Some (s, ret))
        else (best_return st, best_stock st)
    | None => (best_return st, best_stock st)
    end.
Proof.
  unfold best_worst_step. destruct (stock_return df s) as [ret|]; [|done].
  destruct (fgt ret (best_return st)); simpl; by destruct (flt ret _).
Qed.

Lemma best_worst_step_worst df st s :
  (worst_return (best_worst_step df st s), worst_stock (best_worst_step df st s))
  = match stock_return df s with
    | Some ret =>
        if flt ret (worst_return st) then (ret, Some (s, ret))
        else (worst_return st, worst_stock st)
    | None => (worst_return st, worst_stock st)
    end.
Proof.
  unfold best_worst_step. destruct (stock_return df s) as [ret|]; [|done].
  destruct (fgt ret (best_return st)); simpl; by destruct (flt ret _).
Qed.

Lemma best_inv_step df seen st s0 :
  (∀ x, stock_return df s0 = Some x → ∃ q, x = Fin q) →
  best_inv df seen st → best_inv df (seen ++ [s0]) (best_worst_step df st s0).
Proof.
  intros Hfin Hinv. pose proof (best_worst_step_best df st s0) as Hstep.
  destruct (stock_return df s0) as [x|] eqn:Hret.
  - destruct (Hfin x eq_refl) as [q0 ->].
    destruct Hinv as [(Hnone & Hr & Hall)|(s & q & Hs & Hr & Hmax)];
      rewrite Hr in Hstep.
    + (* the first ticker with a return *)
      simpl in Hstep. injection Hstep as Hbr Hbs. right. exists s0, q0.
      repeat split; try done. exists seen, []. repeat split; try done.
      * intros s' q' Hin Hret'. rewrite (Hall s' Hin) in Hret'. done.
      * intros s' q' Hin. by apply elem_of_nil in Hin.
    + unfold fgt in Hstep. simpl in Hstep.
      destruct Hmax as (pre & post & -> & Hsret & Hpre & Hpost).
      destruct (Qlt_bool q q0) eqn:Hlt; injection Hstep as Hbr Hbs; right.
      * (* strictly better: the new ticker takes over *)
        apply Qlt_bool_true in Hlt. exists s0, q0. repeat split; try done.
        exists (pre ++ s :: post), []. repeat split; try done.
        -- intros s' q' Hin Hret'.
           apply elem_of_app in Hin as [Hin|Hin].
           ++ specialize (Hpre s' q' Hin Hret'). lra.
           ++ apply elem_of_cons in Hin as [->|Hin].
              ** rewrite Hsret in Hret'. injection Hret' as ->. done.
              ** specialize (Hpost s' q' Hin Hret'). lra.
        -- intros s' q' Hin. by apply elem_of_nil in Hin.
      * (* not better, a tie included: the earlier ticker stays *)
        apply Qlt_bool_false in Hlt. exists s, q. rewrite Hbr, Hbs, Hs.
        repeat split; try done.
        exists pre, (post ++ [s0]). rewrite <- app_assoc. repeat split; try done.
        intros s' q' Hin Hret'. apply elem_of_app in Hin as [Hin|Hin].
        -- by apply (Hpost s' q').
        -- apply list_elem_of_singleton in Hin as ->.
           rewrite Hret in Hret'. injection Hret' as ->. done.
  - injection Hstep as Hbr Hbs. unfold best_inv. rewrite Hbr, Hbs.
    destruct Hinv as [(Hnone & Hr & Hall)|(s & q & Hs & Hr & Hmax)].
    + left. repeat split; try done. intros s Hin.
      apply elem_of_app in Hin as [Hin|Hin]; [by apply Hall|].
      by apply list_elem_of_singleton in Hin as ->.
    + right. exists s, q. repeat split; try done.
      destruct Hmax as (pre & post & -> & Hsret & Hpre & Hpost).
      exists pre, (post ++ [s0]). rewrite <- app_assoc. repeat split; try done.
      intros s' q' Hin Hret'. apply elem_of_app in Hin as [Hin|Hin].
      * by apply (Hpost s' q').
      * apply list_elem_of_singleton in Hin as ->. congruence.
Qed.

Lemma worst_inv_step df seen st s0 :
  (∀ x, stock_return df s0 = Some x → ∃ q, x = Fin q) →
  worst_inv df seen st → worst_inv df (seen ++ [s0]) (best_worst_step df st s0).
Proof.
  intros Hfin Hinv. pose proof (best_worst_step_worst df st s0) as Hstep.
  destruct (stock_return df s0) as [x|] eqn:Hret.
  - destruct (Hfin x eq_refl) as [q0 ->].
    destruct Hinv as [(Hnone & Hr & Hall)|(s & q & Hs & Hr & Hmin)];
      rewrite Hr in Hstep.
    + simpl in Hstep. injection Hstep as Hwr Hws. right. exists s0, q0.
      repeat split; try done. exists seen, []. repeat split; try done.
      * intros s' q' Hin Hret'. rewrite (Hall s' Hin) in Hret'. done.
      * intros s' q' Hin. by apply elem_of_nil in Hin.
    + simpl in Hstep.
      destruct Hmin as (pre & post & -> & Hsret & Hpre & Hpost).
      destruct (Qlt_bool q0 q) eqn:Hlt; injection Hstep as Hwr Hws; right.
      * apply Qlt_bool_true in Hlt. exists s0, q0. repeat split; try done.
        exists (pre ++ s :: post), []. repeat split; try done.
        -- intros s' q' Hin Hret'.
           apply elem_of_app in Hin as [Hin|Hin].
           ++ specialize (Hpre s' q' Hin Hret'). lra.
           ++ apply elem_of_cons in Hin as [->|Hin].
              ** rewrite Hsret in Hret'. injection Hret' as ->. done.
              ** specialize (Hpost s' q' Hin Hret'). lra.
        -- intros s' q' Hin. by apply elem_of_nil in Hin.
      * apply Qlt_bool_false in Hlt. exists s, q. rewrite Hwr, Hws, Hs.
        repeat split; try done.
        exists pre, (post ++ [s0]). rewrite <- app_assoc. repeat split; try done.
        intros s' q' Hin Hret'. apply elem_of_app in Hin as [Hin|Hin].
        -- by apply (Hpost s' q').
        -- apply list_elem_of_singleton in Hin as ->.
           rewrite Hret in Hret'. injection Hret' as ->. done.
  - injection Hstep as Hwr Hws. unfold worst_inv. rewrite Hwr, Hws.
    destruct Hinv as [(Hnone & Hr & Hall)|(s & q & Hs & Hr & Hmin)].
    + left. repeat split; try done. intros s Hin.
      apply elem_of_app in Hin as [Hin|Hin]; [by apply Hall|].
      by apply list_elem_of_singleton in Hin as ->.
    + right. exists s, q. repeat split; try done.
      destruct Hmin as (pre & post & -> & Hsret & Hpre & Hpost).
      exists pre, (post ++ [s0]). rewrite <- app_assoc. repeat split; try done.
      intros s' q' Hin Hret'. apply elem_of_app in Hin as [Hin|Hin].
      * by apply (Hpost s' q').
      * apply list_elem_of_singleton in Hin as ->. congruence.
Qed.

Lemma best_worst_inv df tracked :
  finite_returns df tracked →
  best_inv df tracked (best_worst df tracked)
  ∧ worst_inv df tracked (best_worst df tracked).
Proof.
  unfold best_worst.
  induction tracked as [|s0 tracked IH] using rev_ind; intros Hfin.
  - split; left; repeat split; try done; intros s Hin; by apply elem_of_nil in Hin.
  - rewrite foldl_app. cbn [foldl].
    destruct IH as [Hb Hw].
    { intros s x Hin. apply Hfin. set_solver. }
    assert (Hs0 : ∀ x, stock_return df s0 = Some x → ∃ q, x = Fin q).
    { intros x. apply Hfin. set_solver. }
    split; [by apply best_inv_step|by apply worst_inv_step].
Qed.


Lemma stock_return_few_rows df stock :
  (length (filter (λ r, of_ticker stock r) df) ≤ 1)%nat →
  stock_return df stock = None.
Proof.
  intros Hlen. unfold stock_return.
  destruct (1 <? _)%nat eqn:E; [|done]. apply Nat.ltb_lt in E. lia.
Qed.




(** ** Volatility *)


(** ** Win rate *)

Lemma winning_trades_le df :
  (winning_trades df ≤ length (filter (λ r, is_buy r) df))%nat.
Proof. unfold winning_trades. apply length_filter. Qed.

Lemma Qratio_percentage (w n : nat) :
  (w ≤ n)%nat → (0 < n)%nat →
  (0 <= inject_Z (Z.of_nat w) / inject_Z (Z.of_nat n) * 100
   ∧ inject_Z (Z.of_nat w) / inject_Z (Z.of_nat n) * 100 <= 100)%Q.
Proof.
  intros Hle Hn.
  assert (Hn' : (0 < inject_Z (Z.of_nat n))%Q).
  { change 0%Q with (inject_Z 0). rewrite <- Zlt_Qlt. lia. }
  assert (Hw : (0 <= inject_Z (Z.of_nat w))%Q).
  { change 0%Q with (inject_Z 0). rewrite <- Zle_Qle. lia. }
  assert (Hwn : (inject_Z (Z.of_nat w) <= inject_Z (Z.of_nat n))%Q).
  { rewrite <- Zle_Qle. lia. }
  assert (H0 : (0 <= inject_Z (Z.of_nat w) / inject_Z (Z.of_nat n))%Q).
  { apply Qle_shift_div_l; [done|lra]. }
  assert (H1 : (inject_Z (Z.of_nat w) / inject_Z (Z.of_nat n) <= 1)%Q).
  { apply Qle_shift_div_r; [done|lra]. }
  split; lra.
Qed.

(** The win rate is a percentage, and 0 without BUY rows. *)
Lemma win_rate_range df : (0 <= win_rate df ∧ win_rate df <= 100)%Q.
Proof.
  unfold win_rate. case_bool_decide as Hempty; [split; lra|].
  apply Qratio_percentage; [apply winning_trades_le|].
  destruct (filter _ df); [done|simpl; lia].
Qed.

Lemma win_rate_no_buy df :
  (∀ r, r ∈ df → is_buy r = false) → win_rate df = 0%Q.
Proof.
  intros Hnone. unfold win_rate.
  assert (Hempty : filter (λ r, is_buy r) df = []).
  { destruct (filter _ df) as [|r l] eqn:Hf; [done|].
    assert (Hr : r ∈ filter (λ r, is_buy r) df) by (rewrite Hf; set_solver).
    apply list_elem_of_filter in Hr as [Hb Hr]. simpl in Hb.
    by rewrite (Hnone r Hr) in Hb. }
  by rewrite Hempty.
Qed.

(** The second emptiness test of the daily version changes nothing. *)
Lemma win_rate_static df : StaticDashboard.win_rate df = win_rate df.
Proof.
  unfold StaticDashboard.win_rate, win_rate.
  case_bool_decide as Hempty; [done|].
  destruct (filter _ df); [done|done].
Qed.

Lemma chronological_order_time_ordered df : time_ordered df → chronological_order df = df.
Proof.
  induction df as [|a df IH]; intros Hord; [done|]. simpl.
  destruct df as [|b df]; [done|]. destruct Hord as [Hab Hord].
  rewrite IH by done. simpl.
  assert (Hle : (timestamp a <=? timestamp b) = true) by (apply Z.leb_le; lia).
  by rewrite Hle.
Qed.

(** On a log in time order the deciding close is the chronologically last
    one: the win rate of the code is the win rate of the specification. *)
Lemma win_rate_time_ordered df :
  time_ordered df → win_rate df = win_rate_chronological df.
Proof.
  intros Hord. unfold win_rate, win_rate_chronological,
    winning_trades, winning_trades_chronological.
  by rewrite chronological_order_time_ordered.
Qed.

(** C4, at the failing input: a BUY of AAPL at 10 on day 0, followed in the
    file by the row of day 2 (close 5) and then by the row of day 1 (close
    20).  The chronologically last later close is 5, so the trade is not
    winning and the win rate of the claim is 0; the code takes the last
    row of the file, close 20, and reports 100 in both metrics
    functions. *)
Theorem win_rate_out_of_order_log np_sqrt :
  (win_rate_chronological out_of_order_log == 0)%Q
  ∧ (win_rate out_of_order_log == 100)%Q
  ∧ (∃ m, ExportDashboard.calculate_performance_metrics
            np_sqrt sample_pm out_of_order_log = Ok (Some m)
          ∧ (ExportDashboard.m_win_rate m == 100)%Q)
  ∧ (∃ m, StaticDashboard.calculate_performance_metrics
            np_sqrt out_of_order_log sample_pm = Ok (Some m)
          ∧ (StaticDashboard.m_win_rate m == 100)%Q).
Proof.
  split; [reflexivity|]. split; [reflexivity|].
  split; eexists; (split; [reflexivity|reflexivity]).
Qed.

(** ** Total value of the simple dashboard *)

Lemma insert_key_perm k keys : GenerateDashboard.insert_key k keys ≡ₚ k :: keys.
Proof.
  induction keys as [|k' keys IH]; simpl; [done|].
  destruct (String.leb k k'); [done|]. rewrite IH. apply Permutation_swap.
Qed.

Lemma sort_keys_perm keys : GenerateDashboard.sort_keys keys ≡ₚ keys.
Proof.
  induction keys as [|k keys IH]; simpl; [done|].
  rewrite insert_key_perm. by rewrite IH.
Qed.

Lemma insert_key_sorted k keys :
  Sorted (λ a b, String.leb a b = true) keys →
  Sorted (λ a b, String.leb a b = true) (GenerateDashboard.insert_key k keys).
Proof.
  induction keys as [|k' keys IH]; intros Hs; simpl.
  - by repeat constructor.
  - destruct (String.leb k k') eqn:Hle.
    + constructor; [done|]. by constructor.
    + apply Sorted_inv in Hs as [Hs Hhd]. constructor; [by apply IH|].
      assert (Hk : String.leb k' k = true).
      { destruct (String.leb_total k k'); congruence. }
      destruct keys as [|k'' keys]; simpl; [by constructor|].
      destruct (String.leb k k''); constructor; [done|].
      by apply HdRel_inv in Hhd.
Qed.

Lemma sort_keys_sorted keys :
  Sorted (λ a b, String.leb a b = true) (GenerateDashboard.sort_keys keys).
Proof.
  induction keys as [|k keys IH]; simpl; [constructor|].
  by apply insert_key_sorted.
Qed.

Lemma unique_spec `{EqDecision A} (s : list A) :
  NoDup (unique s) ∧ ∀ x, x ∈ unique s ↔ x ∈ s.
Proof.
  unfold unique. induction s as [|a s IH] using rev_ind.
  - split; [constructor|done].
  - rewrite foldl_app. cbn [foldl]. destruct IH as [Hnd Hin].
    case_decide as Ha.
    + split; [done|]. intros x. rewrite elem_of_app, Hin.
      split; [by left|]. intros [Hx|Hx]; [done|].
      apply list_elem_of_singleton in Hx as ->. by apply Hin.
    + split.
      * apply NoDup_app. split; [done|]. split; [|apply NoDup_singleton].
        intros x Hx Hx'. by apply list_elem_of_singleton in Hx' as ->.
      * intros x. rewrite !elem_of_app, Hin. done.
Qed.

Lemma foldl_pointwise {A B} (f g : A → B → A) (a : A) (l : list B) :
  (∀ a b, f a b = g a b) → foldl f a l = foldl g a l.
Proof.
  intros Hfg. revert a. induction l as [|b l IH]; intros a; simpl; [done|].
  by rewrite Hfg, IH.
Qed.

Lemma StronglySorted_filter {A} (R : relation A) (P : A → Prop)
  `{∀ x, Decision (P x)} (l : list A) :
  StronglySorted R l → StronglySorted R (filter P l).
Proof.
  induction l as [|a l IH]; intros Hs; [constructor|].
  apply StronglySorted_cons in Hs as [Hall Hs]. rewrite filter_cons.
  case_decide; [|by apply IH].
  apply StronglySorted_cons. split; [|by apply IH].
  apply Forall_forall. intros x Hx. apply list_elem_of_filter in Hx as [_ Hx].
  by eapply Forall_forall in Hall.
Qed.

(** C10, counterexample: AAPL's own latest row (t = 2) has neither
    [position_after] nor [cash_after], so by the claim the holding counts
    for nothing and no cash is found.  [GroupBy.last()] takes the last
    non-null entry of each column: the position and the cash of t = 1 and
    the close of t = 2, and the total is 10 * 110 + 5000. *)
Lemma total_value_last_row_counterexample :
  feq (GenerateDashboard.total_value sort_values stale_checkpoint_log) (Fin 6100)
  ∧ feq (GenerateDashboard.total_value_last_row sort_values stale_checkpoint_log)
        (Fin 0).
Proof. split; reflexivity. Qed.

(** C10, amended.  With the tickers of the log in ascending name order and,
    for each ticker, the last non-null [position_after], [cash_after] and
    [close] among its rows in the order of the sorted frame (ascending
    timestamps, rows of equal timestamp as the sort leaves them; each
    column on its own, not the fields of one row): a ticker adds
    [position_after * close] to the total exactly when it has a
    [position_after] and a [cash_after], NaN standing for a missing close;
    the cash term is the last non-null of the per-ticker [cash_after]
    values in ticker-name order, 0 when there is none.  So the cash can be
    that of the alphabetically last ticker although another ticker has the
    chronologically latest checkpoint, as in [cash_order_log]. *)
Theorem total_value_per_column pd_sort df :
  sorted_by_timestamp df (pd_sort df) →
  let rows := λ k, filter (λ r, of_ticker k r) (pd_sort df) in
  let keys := GenerateDashboard.sort_keys (unique (ticker <$> pd_sort df)) in
  Sorted (λ a b, String.leb a b = true) keys
  ∧ NoDup keys
  ∧ (∀ k, k ∈ keys ↔ ∃ r, r ∈ df ∧ ticker r = k)
  ∧ (∀ k, rows k ≡ₚ filter (λ r, of_ticker k r) df
          ∧ StronglySorted (λ a b, timestamp a ≤ timestamp b) (rows k))
  ∧ GenerateDashboard.total_value pd_sort df
    = fadd
        (foldl (λ total_value k,
                  match last_non_null position_after (rows k),
                        last_non_null cash_after (rows k) with
                  | Some p, Some _ =>
                      fadd total_value
                           (fmul (Fin (inject_Z p))
                                 (cell (last_non_null close (rows k))))
                  | _, _ => total_value
                  end) (Fin 0) keys)
        (Fin (default 0%Q
                (last (dropna ((λ k, last_non_null cash_after (rows k)) <$> keys)))))
  ∧ GenerateDashboard.latest_cash
      (GenerateDashboard.groupby_ticker_last sort_values cash_order_log) = 999%Q
  ∧ cash (ExportDashboard.recalculate_portfolio_from_csv
            sort_values sample_pm cash_order_log)
    = 100%Q.
Proof.
  intros [Hperm Hsort] rows keys.
  destruct (unique_spec (ticker <$> pd_sort df)) as [Hnd Hin].
  split; [apply sort_keys_sorted|].
  split; [subst keys; by rewrite sort_keys_perm|].
  split.
  { intros k. subst keys. rewrite sort_keys_perm, Hin, list_elem_of_fmap.
    split; intros (r & H1 & H2).
    - exists r. by rewrite <- Hperm.
    - exists r. by rewrite Hperm. }
  split.
  { intros k. subst rows. cbn beta. split; [by rewrite Hperm|].
    by apply StronglySorted_filter. }
  split; [|split; reflexivity].
  unfold GenerateDashboard.total_value, GenerateDashboard.groupby_ticker_last,
    GenerateDashboard.holdings_total, GenerateDashboard.latest_cash.
  fold keys. rewrite foldl_fmap, <- list_fmap_compose. f_equal.
  apply foldl_pointwise. intros total k. unfold GenerateDashboard.holding_value.
  simpl. fold (rows k). unfold last_non_null.
  by destruct (last (dropna (position_after <$> rows k))),
              (last (dropna (cash_after <$> rows k))).
Qed.

(** ** The statements at sample inputs *)

Lemma recalculate_without_checkpoint_witness :
  ExportDashboard.recalculate_portfolio_from_csv sort_values sample_pm price_only_log
  = sample_pm.
Proof.
  apply recalculate_without_checkpoint.
  - sorted_literal.
  - intros r Hr. unfold price_only_log in Hr. each_elem Hr.
Defined.

Lemma recalculate_from_latest_checkpoint_witness :
  (let pm' := ExportDashboard.recalculate_portfolio_from_csv
                sort_values sample_pm sample_log in
   portfolio pm' !! "AAPL"%string = Some 10
   ∧ portfolio pm' !! "MSFT"%string = Some 20
   ∧ Some 8200%Q = Some (cash pm'))
  ∧ (let pm' := ExportDashboard.recalculate_portfolio_from_csv
                  sort_values tie_pm tie_log in
     portfolio pm' !! "GOOG"%string = Some 17
     ∧ Some 1017%Q = Some (cash pm')).
Proof.
  split.
  - assert (Hs : sorted_by_timestamp sample_log (sort_values sample_log))
      by sorted_literal.
    assert (HT : max_checkpoint_timestamp sample_log 86400).
    { split.
      - exists (mkRow 86400 "MSFT" "BUY" (Some 20) (Some 40%Q) (Some 20) (Some 8200%Q)).
        split; [|split; reflexivity].
        unfold sample_log. do 2 apply list_elem_of_further. apply list_elem_of_here.
      - intros r Hr Hck. unfold sample_log in Hr.
        repeat (apply elem_of_cons in Hr as [->|Hr];
                [simpl in *; first [lia|discriminate]|]).
        by apply elem_of_nil in Hr. }
    destruct (recalculate_from_latest_checkpoint
                sort_values sample_pm sample_log 86400 Hs HT)
      as (_ & _ & _ & _ & Hord).
    destruct (Hord eq_refl) as [Hpos Hcash].
    split; [|split].
    + rewrite (Hpos "AAPL"%string); [reflexivity|].
      apply list_elem_of_here.
    + rewrite (Hpos "MSFT"%string); [reflexivity|].
      apply list_elem_of_further, list_elem_of_here.
    + exact Hcash.
  - destruct (recalculate_from_latest_checkpoint
                sort_values tie_pm tie_log 259200 tie_log_sorted tie_log_latest)
      as (_ & Hpos & Hcash & _).
    split.
    + rewrite (proj1 (Hpos "GOOG"%string (list_elem_of_here _ _))). reflexivity.
    + exact Hcash.
Defined.

Lemma total_value_per_column_witness :
  GenerateDashboard.total_value sort_values cash_order_log
  = fadd (fadd (fadd (Fin 0) (fmul (Fin 1) (Fin 10))) (fmul (Fin 1) (Fin 10)))
         (Fin 999)
  ∧ GenerateDashboard.total_value sort_values tie_log
    = fadd (fadd (Fin 0) (fmul (Fin 17) (Fin 100))) (Fin 1017).
Proof.
  assert (Hs : sorted_by_timestamp cash_order_log (sort_values cash_order_log))
    by sorted_literal.
  destruct (total_value_per_column sort_values cash_order_log Hs)
    as (_ & _ & _ & _ & Htotal & _).
  destruct (total_value_per_column sort_values tie_log tie_log_sorted)
    as (_ & _ & _ & _ & Htie & _).
  split.
  - rewrite Htotal. reflexivity.
  - rewrite Htie. reflexivity.
Defined.

Lemma returns_step_witness :
  returns [100; 120; 90; 150]%Q !! 1%nat = Some (Fin ((90 - 120) / 120))
  ∧ returns [0; 5]%Q !! 0%nat = Some (inf_of_sign (5 - 0 ?= 0)%Q).
Proof.
  split.
  - apply (proj1 (returns_step [100; 120; 90; 150]%Q 1 120 90 eq_refl eq_refl)).
    intros H. discriminate H.
  - apply (proj2 (returns_step [0; 5]%Q 0 0 5 eq_refl eq_refl)).
    reflexivity.
Defined.

Lemma max_drawdown_of_series_witness :
  ∃ peak x,
    head [100; 120; 90; 150]%Q = Some peak
    ∧ max_drawdown [100; 120; 90; 150]%Q = Ok x
    ∧ x = largest_drawdown
            (zip_with drawdown_of (running_peaks peak [100; 120; 90; 150]%Q)
                      [100; 120; 90; 150]%Q)
    ∧ at_least_zero x
    ∧ (nondecreasing [100; 120; 90; 150]%Q → x = Fin 0)
    ∧ (Forall (λ v, (0 <= v)%Q) [100; 120; 90; 150]%Q →
       ∃ d, x = Fin d ∧ (d <= 100)%Q
            ∧ max_drawdown_spec [100; 120; 90; 150]%Q = Some x).
Proof.
  apply (max_drawdown_of_series [100; 120; 90; 150]%Q).
  simpl. lia.
Defined.



(** * Further properties of the code *)

(** ** Reconstruction *)

(** The outcomes of the reconstruction: nothing is written, or positions
    and cash are written and the trades are either rebuilt or left. *)
Lemma recalculate_cases pd_sort pm csv :
  ExportDashboard.recalculate_portfolio_from_csv pd_sort pm csv = pm
  ∨ ∃ T latest_cash,
      ExportDashboard.recalculate_portfolio_from_csv pd_sort pm csv
      = {| stocks := stocks pm;
           portfolio :=
             foldl (λ m stock,
                      <[stock := default 0
                          (ExportDashboard.new_portfolio
                             (filter (λ r, at_timestamp T r) (pd_sort csv))
                           !! stock)]> m)
                   (portfolio pm) (stocks pm);
           cash := latest_cash;
           trades :=
             match ExportDashboard.trades_loop
                     (filter (λ r, is_buy r) (pd_sort csv)) with
             | Ok trades => trades
             | Raise _ => trades pm
             end;
           initial_value := initial_value pm |}.
Proof.
  unfold ExportDashboard.recalculate_portfolio_from_csv.
  destruct (series_max _) as [T|]; [|by left].
  destruct (iloc_last _) as [c|e]; [|by left].
  right. by exists T, c.
Qed.

(** X1.  Reconstruction only writes the positions of the tracked tickers:
    a ticker outside [pm.stocks] keeps whatever entry it had in
    [pm.portfolio], whatever the log says about it, and the list of
    tracked tickers and the initial value are never changed. *)
Theorem recalculate_keeps_untracked pd_sort pm csv k :
  k ∉ stocks pm →
  let pm' := ExportDashboard.recalculate_portfolio_from_csv pd_sort pm csv in
  portfolio pm' !! k = portfolio pm !! k
  ∧ stocks pm' = stocks pm
  ∧ initial_value pm' = initial_value pm.
Proof.
  intros Hk pm'. subst pm'.
  destruct (recalculate_cases pd_sort pm csv) as [->|(T & c & ->)]; [done|].
  cbn [portfolio stocks initial_value]. split; [|done].
  rewrite portfolio_loop_lookup. by case_decide.
Qed.

(** X2.  Reconstruction is idempotent: running it again on the same log
    changes nothing. *)
Theorem recalculate_idempotent pd_sort pm csv :
  ExportDashboard.recalculate_portfolio_from_csv pd_sort
    (ExportDashboard.recalculate_portfolio_from_csv pd_sort pm csv) csv
  = ExportDashboard.recalculate_portfolio_from_csv pd_sort pm csv.
Proof.
  unfold ExportDashboard.recalculate_portfolio_from_csv at 2.
  destruct (series_max _) as [T|] eqn:HT.
  2: { unfold ExportDashboard.recalculate_portfolio_from_csv. by rewrite HT. }
  destruct (iloc_last _) as [c|e] eqn:Hc.
  2: { unfold ExportDashboard.recalculate_portfolio_from_csv.
       by rewrite HT, Hc. }
  unfold ExportDashboard.recalculate_portfolio_from_csv.
  rewrite HT, Hc. cbn [stocks portfolio initial_value trades]. f_equal.
  - apply map_eq. intros k. rewrite !portfolio_loop_lookup.
    by case_decide.
  - by destruct (ExportDashboard.trades_loop _).
Qed.

Lemma insert_by_timestamp_sorted r df :
  StronglySorted (λ a b, timestamp a ≤ timestamp b) df →
  StronglySorted (λ a b, timestamp a ≤ timestamp b) (insert_by_timestamp r df).
Proof.
  induction df as [|r' df IH]; intros Hs; simpl.
  - by repeat constructor.
  - apply StronglySorted_cons in Hs as [Hall Hs].
    destruct (timestamp r <=? timestamp r') eqn:Hle.
    + apply Z.leb_le in Hle. apply StronglySorted_cons. split.
      * constructor; [done|]. eapply Forall_impl; [exact Hall|].
        simpl. intros x Hx. lia.
      * by apply StronglySorted_cons.
    + apply Z.leb_gt in Hle. apply StronglySorted_cons. split; [|by apply IH].
      rewrite insert_by_timestamp_perm. constructor; [lia|done].
Qed.

Lemma chronological_order_sorted df :
  StronglySorted (λ a b, timestamp a ≤ timestamp b) (chronological_order df).
Proof.
  induction df as [|r df IH]; simpl; [constructor|].
  by apply insert_by_timestamp_sorted.
Qed.

(** The chronological order is one of the sorts the statements speak of. *)
Lemma chronological_order_is_sort df :
  sorted_by_timestamp df (chronological_order df).
Proof. split; [apply chronological_order_perm|apply chronological_order_sorted]. Qed.

Lemma StronglySorted_reverse {A} (R : relation A) (l : list A) :
  StronglySorted R l → StronglySorted (flip R) (reverse l).
Proof.
  induction l as [|a l IH]; intros Hs; [constructor|].
  apply StronglySorted_cons in Hs as [Hall Hs]. rewrite reverse_cons.
  apply StronglySorted_app_2; [|by apply IH|by repeat constructor].
  intros x1 x2 H1 H2. apply list_elem_of_singleton in H2 as ->.
  rewrite elem_of_reverse in H1. unfold flip.
  rewrite Forall_forall in Hall. by apply Hall.
Qed.

(** Two lists of rows in ascending timestamp order with the same rows are
    equal when rows that share a timestamp are equal. *)
Lemma sorted_rows_unique (l1 l2 : DataFrame) :
  (∀ r1 r2, r1 ∈ l1 → r2 ∈ l1 → timestamp r1 = timestamp r2 → r1 = r2) →
  StronglySorted (λ a b, timestamp a ≤ timestamp b) l1 →
  StronglySorted (λ a b, timestamp a ≤ timestamp b) l2 →
  l1 ≡ₚ l2 → l1 = l2.
Proof.
  intros Hdist H1 H2 Hperm.
  apply (StronglySorted_unique_strong (λ a b, timestamp a ≤ timestamp b));
    [|done..].
  intros x1 x2 Hx1 Hx2 Hle Hge. apply Hdist; [done| |lia].
  by rewrite Hperm.
Qed.

(** The loop over the BUY rows: it builds one trade per row when every row
    has a quantity, and raises otherwise. *)
Lemma trades_loop_Ok rows :
  Forall (λ r, is_Some (quantity r)) rows →
  ExportDashboard.trades_loop rows = Ok (trade_of_buy <$> rows).
Proof.
  induction 1 as [|r rows [n Hn] _ IH]; [done|].
  cbn [ExportDashboard.trades_loop]. rewrite IH, fmap_cons.
  unfold ExportDashboard.trade_of_row.
  change (trade_of_buy r) with (trade_with r (default 0 (quantity r))).
  rewrite Hn. reflexivity.
Qed.

Lemma trades_loop_Raise rows :
  ¬ Forall (λ r, is_Some (quantity r)) rows →
  ExportDashboard.trades_loop rows = Raise ValueError.
Proof.
  induction rows as [|r rows IH]; intros Hnot; [by destruct Hnot|].
  cbn [ExportDashboard.trades_loop]. unfold ExportDashboard.trade_of_row.
  destruct (quantity r) as [n|] eqn:Hn; [|done].
  cbn. rewrite IH; [done|].
  intros Hall. apply Hnot. constructor; [by rewrite Hn|done].
Qed.

Lemma trades_of_buy_rows rows :
  Forall (λ r, is_Some (quantity r)) rows →
  Forall2 (λ r t, ∃ n, quantity r = Some n ∧ t = trade_with r n)
          rows (trade_of_buy <$> rows).
Proof.
  induction 1 as [|r rows [n Hn] _ IH]; [constructor|].
  csimpl. constructor; [|done].
  exists n. split; [done|]. unfold trade_of_buy. by rewrite Hn.
Qed.

(** With a checkpoint in the log the reconstruction writes positions and
    cash from the rows at the latest checkpoint timestamp. *)
Lemma recalculate_with_checkpoint pd_sort pm csv T :
  sorted_by_timestamp csv (pd_sort csv) →
  max_checkpoint_timestamp csv T →
  ∃ c, last_non_null cash_after (filter (λ r, at_timestamp T r) (pd_sort csv))
       = Some c
    ∧ ExportDashboard.recalculate_portfolio_from_csv pd_sort pm csv
      = {| stocks := stocks pm;
           portfolio :=
             foldl (λ m stock,
                      <[stock := default 0
                          (ExportDashboard.new_portfolio
                             (filter (λ r, at_timestamp T r) (pd_sort csv))
                           !! stock)]> m)
                   (portfolio pm) (stocks pm);
           cash := c;
           trades :=
             match ExportDashboard.trades_loop
                     (filter (λ r, is_buy r) (pd_sort csv)) with
             | Ok trades => trades
             | Raise _ => trades pm
             end;
           initial_value := initial_value pm |}.
Proof.
  intros [Hperm Hsort] HT.
  destruct (latest_cash_exists csv (pd_sort csv) T Hperm HT) as [c Hc].
  exists c. split; [done|].
  unfold ExportDashboard.recalculate_portfolio_from_csv.
  rewrite (latest_timestamp_is_max _ _ _ Hperm HT).
  unfold last_non_null in Hc. unfold iloc_last. by rewrite Hc.
Qed.

(** X3.  With a checkpoint in the log, [pm.trades] is rebuilt from every
    BUY row of the whole log, not only from the rows of the latest
    checkpoint.  When every BUY row has a quantity there is one trade per
    BUY row, with the row's timestamp, ticker, quantity, close and
    [quantity * close], listed in ascending timestamp order; BUY rows of
    equal timestamp come in the order the sort leaves them, so the list is
    the one built in file order when the log is in time order and no two
    different BUY rows share a timestamp.  When some BUY row has no
    quantity, [int()] raises after positions and cash have been written:
    they are those of the latest checkpoint and [pm.trades] is left as it
    was. *)
Theorem recalculate_trades pd_sort pm csv T :
  sorted_by_timestamp csv (pd_sort csv) →
  max_checkpoint_timestamp csv T →
  let pm' := ExportDashboard.recalculate_portfolio_from_csv pd_sort pm csv in
  let buy_actions := filter (λ r, is_buy r) csv in
  let sorted_at_T := filter (λ r, at_timestamp T r) (pd_sort csv) in
  (Forall (λ r, is_Some (quantity r)) buy_actions →
   ∃ built,
     ExportDashboard.trades_loop buy_actions = Ok built
     ∧ Forall2 (λ r t, ∃ n, quantity r = Some n ∧ t = trade_with r n)
               buy_actions built
     ∧ ExportDashboard.trades_loop (filter (λ r, is_buy r) (pd_sort csv))
       = Ok (trades pm')
     ∧ trades pm' ≡ₚ built
     ∧ trades_ascending (trades pm')
     ∧ (time_ordered csv → distinct_timestamps buy_actions →
        trades pm' = built))
  ∧ (¬ Forall (λ r, is_Some (quantity r)) buy_actions →
     ExportDashboard.trades_loop (filter (λ r, is_buy r) (pd_sort csv))
     = Raise ValueError
     ∧ trades pm' = trades pm
     ∧ last_non_null cash_after sorted_at_T = Some (cash pm')
     ∧ ∀ stock, stock ∈ stocks pm →
         portfolio pm' !! stock
         = Some (default 0 (last_non_null position_after
                              (filter (λ r, of_ticker stock r) sorted_at_T)))).
Proof.
  intros Hsorted HT pm' buy_actions sorted_at_T.
  destruct (recalculate_with_checkpoint pd_sort pm csv T Hsorted HT)
    as (c & Hc & Hpm).
  destruct Hsorted as [Hperm Hsort].
  assert (Hbuy : filter (λ r, is_buy r) (pd_sort csv) ≡ₚ buy_actions).
  { subst buy_actions. by rewrite Hperm. }
  split.
  - intros Hall. exists (trade_of_buy <$> buy_actions).
    assert (Hall' : Forall (λ r, is_Some (quantity r))
                           (filter (λ r, is_buy r) (pd_sort csv)))
      by (by rewrite Hbuy).
    assert (Htr : trades pm'
                  = trade_of_buy <$> filter (λ r, is_buy r) (pd_sort csv)).
    { subst pm'. rewrite Hpm. cbn [trades]. by rewrite trades_loop_Ok. }
    split; [by apply trades_loop_Ok|].
    split; [by apply trades_of_buy_rows|].
    split; [rewrite Htr; by apply trades_loop_Ok|].
    split; [by rewrite Htr, Hbuy|].
    split.
    + rewrite Htr. unfold trades_ascending.
      apply (StronglySorted_fmap _ (λ a b, timestamp a ≤ timestamp b)); [done|].
      by apply StronglySorted_filter.
    + intros Hord Hdist. rewrite Htr. f_equal. symmetry.
      apply sorted_rows_unique; [done| | |done].
      * apply StronglySorted_filter. by apply time_ordered_sorted.
      * by apply StronglySorted_filter.
  - intros Hnot.
    assert (Hnot' : ¬ Forall (λ r, is_Some (quantity r))
                             (filter (λ r, is_buy r) (pd_sort csv)))
      by (by rewrite Hbuy).
    split; [by apply trades_loop_Raise|].
    subst pm'. rewrite Hpm. cbn [trades cash portfolio].
    split; [by rewrite trades_loop_Raise|]. split; [done|].
    intros stock Hstock. rewrite portfolio_loop_lookup.
    case_decide; [|done]. by rewrite new_portfolio_lookup.
Qed.

(** X4.  When no two different rows of the log share a timestamp,
    reconstruction depends neither on the order of the rows in the file
    nor on the sorting algorithm: two logs with the same rows give the
    same portfolio manager. *)
Theorem recalculate_order_independent sort1 sort2 pm csv1 csv2 :
  sorted_by_timestamp csv1 (sort1 csv1) →
  sorted_by_timestamp csv2 (sort2 csv2) →
  csv1 ≡ₚ csv2 →
  distinct_timestamps csv1 →
  ExportDashboard.recalculate_portfolio_from_csv sort1 pm csv1
  = ExportDashboard.recalculate_portfolio_from_csv sort2 pm csv2.
Proof.
  intros [Hperm1 Hsort1] [Hperm2 Hsort2] Hperm Hdist.
  assert (Heq : sort1 csv1 = sort2 csv2).
  { apply sorted_rows_unique; [|done|done|].
    - intros r1 r2 Hr1 Hr2. rewrite Hperm1 in Hr1, Hr2. by apply Hdist.
    - by rewrite Hperm1, Hperm2. }
  unfold ExportDashboard.recalculate_portfolio_from_csv. by rewrite Heq.
Qed.

(** ** Recent trades *)

(** X5.  On a trade list in ascending time order, as reconstruction leaves
    it, the recent-activity list shows the latest [min n (len trades)]
    trades, newest first: it is in descending time order, each shown trade
    is a trade of the list, and no trade left out is later than a shown
    one.  It is the "no trades" message exactly for the empty list. *)
Theorem recent_trades_newest_first n (l : list Trade) :
  trades_ascending l →
  (recent_trades n l = None ↔ l = [])
  ∧ ∀ shown, recent_trades n l = Some shown →
      length shown = (n `min` length l)%nat
      ∧ trades_descending shown
      ∧ (∀ t, t ∈ shown → t ∈ l)
      ∧ (∀ h t, h ∈ take (length l - n) l → t ∈ shown →
                trade_timestamp h ≤ trade_timestamp t).
Proof.
  intros Hasc. unfold recent_trades. split.
  - case_bool_decide; split; done.
  - intros shown Hshown. case_bool_decide as Hne; [done|].
    injection Hshown as <-.
    rewrite <- (take_drop (length l - n) l) in Hasc.
    apply StronglySorted_app in Hasc as (Hcross & _ & Hdrop).
    split; [|split; [|split]].
    + rewrite length_reverse, length_drop. lia.
    + by apply (StronglySorted_reverse _ _ Hdrop).
    + intros t Ht. rewrite elem_of_reverse in Ht.
      rewrite <- (take_drop (length l - n) l). apply elem_of_app. by right.
    + intros h t Hh Ht. rewrite elem_of_reverse in Ht. by apply Hcross.
Qed.

(** ** The valuation series *)

Lemma isna_all_dropna {A} (s : list (option A)) :
  isna_all s = bool_decide (dropna s = []).
Proof.
  induction s as [|c s IH]; [done|]. simpl.
  destruct c; simpl; [done|apply IH].
Qed.

Lemma bucket_value_good tracked timestamp_data :
  ¬ bad_bucket tracked timestamp_data →
  bucket_value tracked timestamp_data = Ok (bucket_total tracked timestamp_data).
Proof.
  intros Hgood. unfold bucket_total.
  destruct (last_non_null cash_after timestamp_data) as [c|] eqn:Hc.
  - apply bucket_value_emitted; [done|].
    intros s Hs Hbad. apply Hgood. split; [by rewrite Hc|].
    apply Exists_exists. by exists s.
  - unfold bucket_value. rewrite isna_all_dropna.
    unfold last_non_null in Hc. apply last_None in Hc. by rewrite Hc.
Qed.

Lemma bucket_value_bad tracked timestamp_data :
  bad_bucket tracked timestamp_data →
  bucket_value tracked timestamp_data = Raise IndexError.
Proof.
  intros [[c Hc] Hbad]. unfold bucket_value. rewrite isna_all_dropna.
  unfold last_non_null in Hc.
  assert (Hne : dropna (cash_after <$> timestamp_data) ≠ [])
    by (intros Heq; by rewrite Heq in Hc).
  rewrite bool_decide_eq_false_2 by done.
  unfold iloc_last. rewrite Hc. cbn [mbind exc_bind].
  rewrite stock_value_loop_raises; [done|].
  apply Exists_exists in Hbad as (s & Hs & Hbad). by exists s.
Qed.

Lemma portfolio_values_loop_spec g tracked df bs acc :
  portfolio_values_loop g tracked df bs acc
  = if decide (Exists (λ b, bad_bucket tracked (filter (λ r, in_bucket g b r) df)) bs)
    then Raise IndexError
    else Ok (acc ++ omap (λ b, bucket_total tracked
                                 (filter (λ r, in_bucket g b r) df)) bs).
Proof.
  revert acc. induction bs as [|b bs IH]; intros acc.
  - cbn [portfolio_values_loop omap list_omap]. rewrite app_nil_r.
    destruct (decide (Exists _ [])) as [H|H]; [|done]. by apply Exists_nil in H.
  - cbn [portfolio_values_loop].
    destruct (decide (bad_bucket tracked (filter (λ r, in_bucket g b r) df)))
      as [Hbad|Hgood].
    + rewrite bucket_value_bad by done. cbn [mbind exc_bind].
      destruct (decide (Exists _ (b :: bs))) as [H|H]; [done|].
      exfalso. apply H. apply Exists_cons. by left.
    + rewrite bucket_value_good by done. cbn [mbind exc_bind]. rewrite IH.
      cbn [omap list_omap].
      destruct (decide (Exists _ bs)) as [Hex|Hnex];
        destruct (decide (Exists _ (b :: bs))) as [H|H]; try done.
      * exfalso. apply H. apply Exists_cons. by right.
      * apply Exists_cons in H as [H|H]; done.
      * destruct (bucket_total _ _); [|done]. by rewrite <- app_assoc.
Qed.

Lemma omap_length_le {A B} (f : A → option B) (l : list A) :
  (length (omap f l) ≤ length l)%nat.
Proof.
  induction l as [|a l IH]; [done|]. cbn [omap list_omap].
  destruct (f a); simpl; lia.
Qed.

Lemma elem_of_buckets g df b :
  b ∈ buckets g df ↔ ∃ r, r ∈ df ∧ floor g (timestamp r) = b.
Proof.
  unfold buckets. destruct (unique_spec (floor g <$> (timestamp <$> df))) as [_ ->].
  rewrite list_elem_of_fmap. split.
  - intros (t & -> & Ht). apply list_elem_of_fmap in Ht as (r & -> & Hr). eauto.
  - intros (r & Hr & <-). exists (timestamp r). split; [done|].
    apply list_elem_of_fmap. eauto.
Qed.

(** X6.  The valuation fails exactly on the logs that have a bucket with a
    cash checkpoint in which some tracked ticker has a position but no
    close: then, and only then, [portfolio_values] raises [IndexError], and
    so do both metrics functions (hourly and daily buckets), which raise
    nowhere else. *)
Theorem valuation_raises_iff np_sqrt pm df :
  let failing g :=
    ∃ r, r ∈ df
       ∧ bad_bucket (stocks pm)
           (filter (λ x, in_bucket g (floor g (timestamp r)) x) df) in
  (∀ g, portfolio_values g (stocks pm) df = Raise IndexError ↔ failing g)
  ∧ (ExportDashboard.calculate_performance_metrics np_sqrt pm df = Raise IndexError
     ↔ failing hour)
  ∧ (StaticDashboard.calculate_performance_metrics np_sqrt df pm = Raise IndexError
     ↔ failing day).
Proof.
  intros failing.
  assert (Hpv : ∀ g, portfolio_values g (stocks pm) df = Raise IndexError ↔ failing g).
  { intros g. unfold portfolio_values. fold (buckets g df).
    rewrite portfolio_values_loop_spec.
    destruct (decide (Exists _ (buckets g df))) as [Hex|Hex].
    - split; [intros _|done]. apply Exists_exists in Hex as (b & Hb & Hbad).
      apply elem_of_buckets in Hb as (r & Hr & <-). by exists r.
    - split; [done|]. intros (r & Hr & Hbad). exfalso. apply Hex.
      apply Exists_exists. exists (floor g (timestamp r)). split; [|done].
      apply elem_of_buckets. eauto. }
  split; [done|]. split.
  - rewrite <- Hpv. unfold ExportDashboard.calculate_performance_metrics.
    case_bool_decide as Hdf; [by subst df|].
    destruct (portfolio_values hour (stocks pm) df) as [values|e].
    + cbn [mbind exc_bind]. by destruct (length values <? 2)%nat.
    + by destruct e.
  - rewrite <- Hpv. unfold StaticDashboard.calculate_performance_metrics.
    case_bool_decide as Hdf; [by subst df|].
    destruct (portfolio_values day (stocks pm) df) as [values|e].
    + cbn [mbind exc_bind]. destruct values as [|v0 values]; [done|].
      by destruct (length (v0 :: values) <? 2)%nat.
    + by destruct e.
Qed.

(** X7.  On every other log the valuation series has one point for each
    bucket that contains a non-null [cash_after], in the order in which
    the buckets first appear in the file, and none for the other buckets;
    each point is the last cash of the bucket plus, for every tracked
    ticker, last position times last close when the bucket has both. *)
Theorem valuation_series_closed_form g tracked df :
  (∀ r, r ∈ df →
        ¬ bad_bucket tracked (filter (λ x, in_bucket g (floor g (timestamp r)) x) df)) →
  portfolio_values g tracked df = Ok (valuation_series g tracked df)
  ∧ (length (valuation_series g tracked df) ≤ length (buckets g df))%nat.
Proof.
  intros Hgood. split.
  - unfold portfolio_values. fold (buckets g df).
    rewrite portfolio_values_loop_spec.
    destruct (decide (Exists _ (buckets g df))) as [Hex|Hex]; [|done].
    apply Exists_exists in Hex as (b & Hb & Hbad).
    apply elem_of_buckets in Hb as (r & Hr & <-). by destruct (Hgood r Hr).
  - unfold valuation_series. apply omap_length_le.
Qed.

(** X8.  A log in which no row carries a [cash_after] has an empty
    valuation series, and both metrics functions return the empty
    dictionary: nothing is raised, even when a ticker has a position and
    no close, because the cash test comes first. *)
Theorem no_cash_no_valuation np_sqrt pm df :
  (∀ r, r ∈ df → cash_after r = None) →
  (∀ g, portfolio_values g (stocks pm) df = Ok [])
  ∧ ExportDashboard.calculate_performance_metrics np_sqrt pm df = Ok None
  ∧ StaticDashboard.calculate_performance_metrics np_sqrt df pm = Ok None.
Proof.
  intros Hnone.
  assert (Hcash : ∀ rows, (∀ r, r ∈ rows → r ∈ df) →
                          last_non_null cash_after rows = None).
  { intros rows Hsub. unfold last_non_null.
    destruct (last _) as [c|] eqn:Hl; [|done].
    apply last_Some_elem_of, elem_of_dropna, list_elem_of_fmap in Hl
      as (r & Hc & Hr).
    rewrite (Hnone r (Hsub r Hr)) in Hc. done. }
  assert (Hpv : ∀ g, portfolio_values g (stocks pm) df = Ok []).
  { intros g. unfold portfolio_values. fold (buckets g df).
    rewrite portfolio_values_loop_spec.
    destruct (decide (Exists _ (buckets g df))) as [Hex|Hex].
    - apply Exists_exists in Hex as (b & _ & [[c Hc] _]).
      rewrite Hcash in Hc; [done|].
      intros r Hr. by apply list_elem_of_filter in Hr as [_ Hr].
    - f_equal. simpl. clear Hex.
      induction (buckets g df) as [|b bs IH]; [done|].
      cbn [omap list_omap]. unfold bucket_total at 1. rewrite Hcash; [done|].
      intros r Hr. by apply list_elem_of_filter in Hr as [_ Hr]. }
  split; [done|]. split.
  - unfold ExportDashboard.calculate_performance_metrics.
    case_bool_decide; [done|]. by rewrite Hpv.
  - unfold StaticDashboard.calculate_performance_metrics.
    case_bool_decide; [done|]. by rewrite Hpv.
Qed.

(** ** Daily values of the simple dashboard *)

Lemma insert_date_perm d dates :
  GenerateDashboardDaily.insert_date d dates ≡ₚ d :: dates.
Proof.
  induction dates as [|d' dates IH]; simpl; [done|].
  destruct (d <=? d'); [done|]. rewrite IH. apply Permutation_swap.
Qed.

Lemma sort_dates_perm dates : GenerateDashboardDaily.sort_dates dates ≡ₚ dates.
Proof.
  induction dates as [|d dates IH]; simpl; [done|].
  rewrite insert_date_perm. by rewrite IH.
Qed.

Lemma insert_date_sorted d dates :
  StronglySorted Z.le dates →
  StronglySorted Z.le (GenerateDashboardDaily.insert_date d dates).
Proof.
  induction dates as [|d' dates IH]; intros Hs; simpl.
  - by repeat constructor.
  - apply StronglySorted_cons in Hs as [Hall Hs].
    destruct (d <=? d') eqn:Hle.
    + apply Z.leb_le in Hle. apply StronglySorted_cons. split.
      * constructor; [done|]. eapply Forall_impl; [exact Hall|].
        simpl. intros x Hx. lia.
      * by apply StronglySorted_cons.
    + apply Z.leb_gt in Hle. apply StronglySorted_cons. split; [|by apply IH].
      rewrite insert_date_perm. constructor; [lia|done].
Qed.

Lemma sort_dates_sorted dates :
  StronglySorted Z.le (GenerateDashboardDaily.sort_dates dates).
Proof.
  induction dates as [|d dates IH]; simpl; [constructor|].
  by apply insert_date_sorted.
Qed.

(** One iteration of the ticker loop adds the ticker's contribution. *)
Lemma stock_val_step_contribution day_data stock_val ticker :
  (GenerateDashboardDaily.stock_val_step day_data stock_val ticker
   == stock_val + ticker_contribution day_data ticker)%Q.
Proof.
  unfold GenerateDashboardDaily.stock_val_step, ticker_contribution, last_non_null.
  case_bool_decide as Hempty.
  - rewrite Hempty. simpl. ring.
  - destruct (last (dropna (position_after <$> _))) as [p|];
      destruct (last (dropna (close <$> _))) as [c|]; simpl; ring.
Qed.

Lemma stock_val_loop_contributions day_data tickers a b :
  (a == b)%Q →
  (foldl (GenerateDashboardDaily.stock_val_step day_data) a tickers
   == foldl (λ v s, v + ticker_contribution day_data s) b tickers)%Q.
Proof.
  revert a b. induction tickers as [|s tickers IH]; intros a b Hab; [done|].
  cbn [foldl]. apply IH. rewrite stock_val_step_contribution. by rewrite Hab.
Qed.

(** X9.  The simple dashboard values every day of the log, in ascending
    date order and each day once, whether or not the day has a cash
    checkpoint: its series has exactly one value per distinct day, so it is
    never shorter than the daily series of the static dashboard, which
    skips the days without cash. *)
Theorem simple_dashboard_values_every_day tracked df :
  length (GenerateDashboardDaily.portfolio_values df) = length (buckets day df)
  ∧ StronglySorted Z.le (GenerateDashboardDaily.daily_index df)
  ∧ NoDup (GenerateDashboardDaily.daily_index df)
  ∧ (∀ d, d ∈ GenerateDashboardDaily.daily_index df
          ↔ ∃ r, r ∈ df ∧ floor day (timestamp r) = d)
  ∧ (length (valuation_series day tracked df)
     ≤ length (GenerateDashboardDaily.portfolio_values df))%nat.
Proof.
  assert (Hlen : length (GenerateDashboardDaily.portfolio_values df)
                 = length (buckets day df)).
  { unfold GenerateDashboardDaily.portfolio_values,
      GenerateDashboardDaily.daily_index.
    rewrite length_fmap. fold (buckets day df). by rewrite sort_dates_perm. }
  split; [done|]. split; [apply sort_dates_sorted|]. split; [|split].
  - unfold GenerateDashboardDaily.daily_index. rewrite sort_dates_perm.
    apply unique_spec.
  - intros d. unfold GenerateDashboardDaily.daily_index.
    rewrite sort_dates_perm. apply elem_of_buckets.
  - rewrite Hlen. unfold valuation_series. apply omap_length_le.
Qed.

(** X10.  The value the simple dashboard gives a day is the last cash of
    the day (0 without one) plus, for every ticker of the log, last
    position times last close of the day (0 when either is missing).  So
    whenever the bucket valuation of the other dashboards, tracking all
    tickers of the log, is defined for that day, the two agree; where that
    valuation raises, the simple dashboard counts the ticker as 0. *)
Theorem simple_dashboard_day_value df date :
  let day_data := filter (λ r, in_bucket day date r) df in
  let tickers := unique (ticker <$> df) in
  (GenerateDashboardDaily.day_value df date
   == default 0 (last_non_null cash_after day_data)
      + foldl (λ v s, v + ticker_contribution day_data s) 0 tickers)%Q
  ∧ ∀ v, bucket_value tickers day_data = Ok (Some v) →
         (GenerateDashboardDaily.day_value df date == v)%Q.
Proof.
  intros day_data tickers.
  assert (Hval : (GenerateDashboardDaily.day_value df date
                  == default 0 (last_non_null cash_after day_data)
                     + foldl (λ v s, v + ticker_contribution day_data s) 0 tickers)%Q).
  { unfold GenerateDashboardDaily.day_value, GenerateDashboardDaily.cash_val.
    fold day_data tickers. fold (last_non_null cash_after day_data).
    by rewrite (stock_val_loop_contributions day_data tickers 0 0). }
  split; [done|]. intros v Hv.
  destruct (decide (bad_bucket tickers day_data)) as [Hbad|Hgood].
  - by rewrite bucket_value_bad in Hv.
  - rewrite bucket_value_good in Hv by done. injection Hv as Hv.
    unfold bucket_total in Hv. rewrite Hval.
    destruct (last_non_null cash_after day_data) as [c|]; [|done].
    injection Hv as <-. simpl. ring.
Qed.

(** ** Win rate of the snapshots *)

(** X11.  Whatever the log, a snapshot returned by either metrics function
    carries a win rate between 0 and 100, the same number in both. *)
Theorem metrics_win_rate_percentage np_sqrt pm df :
  (∀ m, ExportDashboard.calculate_performance_metrics np_sqrt pm df = Ok (Some m) →
        ExportDashboard.m_win_rate m = win_rate df
        ∧ (0 <= ExportDashboard.m_win_rate m)%Q
        ∧ (ExportDashboard.m_win_rate m <= 100)%Q)
  ∧ (∀ m, StaticDashboard.calculate_performance_metrics np_sqrt df pm = Ok (Some m) →
          StaticDashboard.m_win_rate m = win_rate df
          ∧ (0 <= StaticDashboard.m_win_rate m)%Q
          ∧ (StaticDashboard.m_win_rate m <= 100)%Q).
Proof.
  pose proof (win_rate_range df) as [H0 H100].
  split; intros m Hm.
  - unfold ExportDashboard.calculate_performance_metrics in Hm.
    case_bool_decide; [done|].
    destruct (portfolio_values hour (stocks pm) df) as [values|e]; [|done].
    cbn [mbind exc_bind] in Hm.
    destruct (length values <? 2)%nat; [done|].
    injection Hm as <-. by cbn [ExportDashboard.m_win_rate].
  - unfold StaticDashboard.calculate_performance_metrics in Hm.
    case_bool_decide; [done|].
    destruct (portfolio_values day (stocks pm) df) as [values|e]; [|done].
    cbn [mbind exc_bind] in Hm.
    destruct (length values <? 2)%nat; [done|].
    destruct (max_drawdown values) as [d|e]; [|done].
    cbn [mbind exc_bind] in Hm. injection Hm as <-.
    cbn [StaticDashboard.m_win_rate]. by rewrite win_rate_static.
Qed.


Lemma filter_nil_forall {A} (P : A → Prop) `{∀ x, Decision (P x)} (l : list A) :
  (∀ x, x ∈ l → ¬ P x) → filter P l = [].
Proof.
  intros Hnone. induction l as [|a l IH]; [done|].
  rewrite filter_cons. case_decide as Ha.
  - exfalso. apply (Hnone a); [set_solver|done].
  - apply IH. intros x Hx. apply Hnone. set_solver.
Qed.

Lemma filter_length_mono {A} (P Q : A → Prop)
  `{∀ x, Decision (P x)} `{∀ x, Decision (Q x)} (l : list A) :
  (∀ x, x ∈ l → P x → Q x) → (length (filter P l) ≤ length (filter Q l))%nat.
Proof.
  intros Himp. induction l as [|a l IH]; [done|].
  assert (IH' : (length (filter P l) ≤ length (filter Q l))%nat).
  { apply IH. intros x Hx. apply Himp. set_solver. }
  rewrite !filter_cons. destruct (decide (P a)) as [Ha|Ha].
  - rewrite decide_True by (apply Himp; [set_solver|done]). simpl. lia.
  - destruct (decide (Q a)); simpl; lia.
Qed.

Lemma filter_length_lt {A} (Q : A → Prop) `{∀ x, Decision (Q x)} (l : list A) a :
  a ∈ l → ¬ Q a → (length (filter Q l) < length l)%nat.
Proof.
  intros Ha Hna. induction l as [|b l IH]; [by apply elem_of_nil in Ha|].
  rewrite filter_cons. apply elem_of_cons in Ha as [<-|Ha].
  - rewrite decide_False by done. pose proof (length_filter Q l). simpl. lia.
  - specialize (IH Ha). destruct (decide (Q b)); simpl; lia.
Qed.

Lemma followed_spec df t :
  followed df t = true
  ↔ ∃ r, r ∈ df ∧ ticker r = ticker t ∧ timestamp t < timestamp r.
Proof.
  unfold followed, future_prices. split.
  - destruct (filter _ df) as [|r l] eqn:Hf; [done|]. intros _.
    assert (Hr : r ∈ filter (λ r, of_ticker (ticker t) r
                                   && (timestamp t <? timestamp r)) df)
      by (rewrite Hf; set_solver).
    apply list_elem_of_filter in Hr as [Hlater Hr].
    apply andb_prop_elim in Hlater as [Htk Hlt].
    unfold of_ticker in Htk. apply bool_decide_unpack in Htk.
    apply Is_true_true, Z.ltb_lt in Hlt. by exists r.
  - intros (r & Hr & Htk & Hlt).
    destruct (filter _ df) as [|r' l] eqn:Hf; [|done].
    assert (Hin : r ∈ filter (λ r, of_ticker (ticker t) r
                                    && (timestamp t <? timestamp r)) df).
    { apply list_elem_of_filter. split; [|done].
      apply andb_prop_intro. split.
      - unfold of_ticker. by apply bool_decide_pack.
      - by apply Is_true_true, Z.ltb_lt. }
    rewrite Hf in Hin. by apply elem_of_nil in Hin.
Qed.

Lemma unfollowed_not_winning df t : followed df t = false → is_winning df t = false.
Proof.
  unfold followed, is_winning. by destruct (future_prices df t).
Qed.

(** X13.  A BUY row that no row of the same ticker follows in time is
    scored as not winning and still counts in the denominator, which is
    the number of all BUY rows: the number of winning trades is at most
    the number of BUY rows that are followed, the win rate is at most the
    share of those among all BUY rows, it is below 100 as soon as one BUY
    row is not followed, and it is 0 when none is, however many BUY rows
    there are. *)
Theorem win_rate_without_later_prices df :
  let trades := filter (λ r, is_buy r) df in
  let observed := filter (λ t, followed df t) trades in
  (∀ t, followed df t = true
        ↔ ∃ r, r ∈ df ∧ ticker r = ticker t ∧ timestamp t < timestamp r)
  ∧ (∀ t, followed df t = false → is_winning df t = false)
  ∧ (winning_trades df ≤ length observed)%nat
  ∧ (trades ≠ [] →
     (win_rate df <= inject_Z (Z.of_nat (length observed))
                     / inject_Z (Z.of_nat (length trades)) * 100)%Q)
  ∧ ((∃ t, t ∈ trades ∧ followed df t = false) → (win_rate df < 100)%Q)
  ∧ (observed = [] → winning_trades df = 0%nat ∧ (win_rate df == 0)%Q).
Proof.
  intros trades observed.
  assert (Hle : (winning_trades df ≤ length observed)%nat).
  { unfold winning_trades. apply filter_length_mono. intros t _ Hwin.
    destruct (followed df t) eqn:Hf; [done|].
    by rewrite (unfollowed_not_winning df t Hf) in Hwin. }
  split; [apply followed_spec|]. split; [apply unfollowed_not_winning|].
  split; [done|]. split; [|split].
  - intros Hne. unfold win_rate. fold trades.
    rewrite bool_decide_eq_false_2 by done.
    assert (Hn : (0 < inject_Z (Z.of_nat (length trades)))%Q).
    { destruct trades; [done|]. rewrite <- (Zlt_Qlt 0). simpl. lia. }
    apply Qmult_le_compat_r; [|done].
    apply Qmult_le_compat_r; [rewrite <- Zle_Qle; lia|].
    by apply Qlt_le_weak, Qinv_lt_0_compat.
  - intros (t & Ht & Hf).
    assert (Hlt : (length observed < length trades)%nat).
    { apply (filter_length_lt _ _ t); [done|]. rewrite Hf. intros H; exact H. }
    unfold win_rate. fold trades.
    rewrite bool_decide_eq_false_2 by (intros Heq; by rewrite Heq in Ht; apply elem_of_nil in Ht).
    assert (Hn : (0 < inject_Z (Z.of_nat (length trades)))%Q).
    { rewrite <- (Zlt_Qlt 0). lia. }
    assert (Hw : (inject_Z (Z.of_nat (winning_trades df))
                  < inject_Z (Z.of_nat (length trades)))%Q).
    { rewrite <- Zlt_Qlt. lia. }
    assert (Hq : (inject_Z (Z.of_nat (winning_trades df))
                  / inject_Z (Z.of_nat (length trades)) < 1)%Q).
    { apply Qlt_shift_div_r; [done|]. lra. }
    lra.
  - intros Hnone.
    assert (Hw : winning_trades df = 0%nat).
    { rewrite Hnone in Hle. simpl in Hle. lia. }
    split; [done|]. unfold win_rate. rewrite Hw.
    case_bool_decide; [done|]. unfold Qdiv. ring.
Qed.

(** ** Maximum drawdown against every earlier point *)

Lemma drawdown_step_peak st v :
  (fst st <= fst (drawdown_step st v) ∧ v <= fst (drawdown_step st v))%Q.
Proof.
  unfold drawdown_step. cbn [fst].
  destruct (Qlt_bool (fst st) v) eqn:E.
  - apply Qlt_bool_true in E. split; lra.
  - apply Qlt_bool_false in E. split; lra.
Qed.

Lemma drawdown_fold_peak values st x :
  (x <= fst st)%Q ∨ x ∈ values →
  (x <= fst (foldl drawdown_step st values))%Q.
Proof.
  revert st. induction values as [|v values IH]; intros st Hx.
  - destruct Hx as [Hx|Hx]; [done|by apply elem_of_nil in Hx].
  - cbn [foldl]. apply IH.
    destruct (drawdown_step_peak st v) as [Hp Hv].
    destruct Hx as [Hx|Hx]; [left; lra|].
    apply elem_of_cons in Hx as [->|Hx]; [by left|by right].
Qed.

Lemma drawdown_step_grows st v m :
  drawdown_inv st → (0 <= v)%Q → snd st = Fin m →
  ∃ m', snd (drawdown_step st v) = Fin m' ∧ (m <= m')%Q.
Proof.
  intros Hinv Hv Hm.
  destruct (drawdown_step_inv st v Hinv Hv) as [(m' & Hm' & _) _].
  exists m'. split; [done|].
  unfold drawdown_step in Hm'. cbn [snd] in Hm'. rewrite Hm in Hm'.
  destruct (fgt _ (Fin m)) eqn:Hgt.
  - rewrite Hm' in Hgt. unfold fgt in Hgt. simpl in Hgt.
    apply Qlt_bool_true in Hgt. lra.
  - injection Hm' as ->. lra.
Qed.

Lemma drawdown_fold_grows values st m :
  drawdown_inv st → Forall (λ v, (0 <= v)%Q) values → snd st = Fin m →
  ∃ m', snd (foldl drawdown_step st values) = Fin m' ∧ (m <= m')%Q.
Proof.
  revert st m. induction values as [|v values IH]; intros st m Hinv Hnn Hm.
  - exists m. split; [done|lra].
  - apply Forall_cons in Hnn as [Hv Hnn]. cbn [foldl].
    destruct (drawdown_step_grows st v m Hinv Hv Hm) as (m1 & Hm1 & Hle1).
    destruct (drawdown_step_inv st v Hinv Hv) as [Hinv1 _].
    destruct (IH _ m1 Hinv1 Hnn Hm1) as (m2 & Hm2 & Hle2).
    exists m2. split; [done|lra].
Qed.

(** The drop from an earlier point is at most the drop from the peak. *)
Lemma drop_from_peak u peak v :
  (0 < u)%Q → (u <= peak)%Q → (0 <= v)%Q →
  ((u - v) / u * 100 <= (peak - v) / peak * 100)%Q.
Proof.
  intros Hu Hup Hv.
  assert (Hy : (0 <= v / peak)%Q) by (apply Qle_shift_div_l; lra).
  assert (Hyp : (v / peak * peak == v)%Q) by (field; lra).
  assert (H1 : ((u - v) / u <= 1 - v / peak)%Q).
  { apply Qle_shift_div_r; [done|]. nra. }
  assert (H2 : ((peak - v) / peak == 1 - v / peak)%Q) by (field; lra).
  rewrite H2. lra.
Qed.

Lemma drawdown_step_dominates st u v :
  drawdown_inv st → (0 <= v)%Q → (0 < u)%Q → (u <= fst st)%Q →
  ∃ m', snd (drawdown_step st v) = Fin m' ∧ ((u - v) / u * 100 <= m')%Q.
Proof.
  intros Hinv Hv Hu Hup.
  destruct Hinv as (m & Hm & Hm0 & Hm100 & Hpeak).
  destruct (drawdown_step_peak st v) as [Hp' Hv'].
  unfold drawdown_step in *. cbn [fst snd] in *.
  set (peak' := if Qlt_bool (fst st) v then v else fst st) in *.
  fold (drawdown_of peak' v).
  rewrite drawdown_of_finite by lra. rewrite Hm.
  pose proof (drop_from_peak u peak' v Hu ltac:(lra) Hv) as Hdrop.
  destruct (fgt _ (Fin m)) eqn:Hgt.
  - eexists. split; [done|lra].
  - exists m. split; [done|]. unfold fgt in Hgt. simpl in Hgt.
    apply Qlt_bool_false in Hgt. lra.
Qed.

(** X14.  On a series without negative valuations the reported maximum
    drawdown is at least the percentage drop from any earlier positive
    valuation to any later one, not only the drops measured from the
    running peak. *)
Theorem max_drawdown_dominates_every_drop values pre u mid v post :
  values = pre ++ u :: mid ++ v :: post →
  Forall (λ x, (0 <= x)%Q) values → (0 < u)%Q →
  ∃ d, max_drawdown values = Ok (Fin d) ∧ ((u - v) / u * 100 <= d)%Q.
Proof.
  intros Hvalues Hnn Hu.
  assert (Hv0 : ∃ v0 rest, values = v0 :: rest).
  { subst values. destruct pre; simpl; eauto. }
  destruct Hv0 as (v0 & rest & Hv0).
  assert (Hhd : iloc_first values = Ok v0) by (by rewrite Hv0).
  unfold max_drawdown. rewrite Hhd. cbn [mbind exc_bind mret exc_ret].
  assert (Hinv0 : drawdown_inv (v0, Fin 0)).
  { exists 0%Q. cbn [fst snd]. repeat split; try done; try lra.
    rewrite Hv0 in Hnn. by apply Forall_cons in Hnn as [? _]. }
  rewrite Hvalues in Hnn |- *.
  change (pre ++ u :: mid ++ v :: post) with (pre ++ (u :: mid) ++ v :: post) in *.
  rewrite !app_assoc in Hnn |- *.
  apply Forall_app in Hnn as [Hnn1 Hnn2].
  apply Forall_cons in Hnn2 as [Hv Hnn2].
  rewrite foldl_app. cbn [foldl].
  set (st1 := foldl drawdown_step (v0, Fin 0) ((pre ++ u :: mid))).
  assert (Hinv1 : drawdown_inv st1).
  { by apply drawdown_fold_inv. }
  assert (Hpeak1 : (u <= fst st1)%Q).
  { apply drawdown_fold_peak. right. set_solver. }
  destruct (drawdown_step_dominates st1 u v Hinv1 Hv Hu Hpeak1) as (m1 & Hm1 & Hle1).
  destruct (drawdown_step_inv st1 v Hinv1 Hv) as [Hinv2 _].
  destruct (drawdown_fold_grows post _ m1 Hinv2 Hnn2 Hm1) as (d & Hd & Hle2).
  exists d. split; [by rewrite Hd|lra].
Qed.

(** ** Best against worst *)

Lemma first_maximal_bounds df tracked s q s' q' :
  first_maximal df tracked s q →
  s' ∈ tracked → stock_return df s' = Some (Fin q') → (q' <= q)%Q.
Proof.
  intros (pre & post & -> & Hret & Hpre & Hpost) Hin Hret'.
  apply elem_of_app in Hin as [Hin|Hin].
  - specialize (Hpre s' q' Hin Hret'). lra.
  - apply elem_of_cons in Hin as [->|Hin].
    + rewrite Hret in Hret'. injection Hret' as ->. lra.
    + by apply (Hpost s' q').
Qed.

(** X15.  When the returns of the tracked tickers are finite, the
    dashboard names a best instrument if and only if it names a worst one,
    and the return of the worst is never above the return of the best. *)
Theorem worst_not_above_best df tracked :
  finite_returns df tracked →
  let bw := best_worst df tracked in
  (best_stock bw = None ↔ worst_stock bw = None)
  ∧ ∀ sb xb sw xw,
      best_stock bw = Some (sb, xb) → worst_stock bw = Some (sw, xw) →
      ∃ qb qw, xb = Fin qb ∧ xw = Fin qw ∧ (qw <= qb)%Q.
Proof.
  intros Hfin bw. destruct (best_worst_inv df tracked Hfin) as [Hb Hw].
  fold bw in Hb, Hw.
  destruct Hb as [(Hbn & _ & Hball)|(sb & qb & Hbs & _ & Hmax)];
    destruct Hw as [(Hwn & _ & Hwall)|(sw & qw & Hws & _ & Hmin)].
  - split; [done|]. intros ???? Hb. congruence.
  - exfalso. destruct Hmin as (pre & post & -> & Hret & _).
    rewrite Hball in Hret; [done|set_solver].
  - exfalso. destruct Hmax as (pre & post & -> & Hret & _).
    rewrite Hwall in Hret; [done|set_solver].
  - split; [by rewrite Hbs, Hws|].
    intros sb' xb sw' xw Hb' Hw'. rewrite Hbs in Hb'. rewrite Hws in Hw'.
    injection Hb' as <- <-. injection Hw' as <- <-.
    exists qb, qw. repeat split.
    destruct Hmin as (pre & post & Htr & Hret & _).
    apply (first_maximal_bounds df tracked sb qb sw qw Hmax); [|done].
    rewrite Htr. set_solver.
Qed.

(** ** Buckets of a log in time order *)

Lemma floor_monotone g t1 t2 : 0 < g → t1 ≤ t2 → floor g t1 ≤ floor g t2.
Proof.
  intros Hg Hle. unfold floor. apply Z.mul_le_mono_nonneg_l; [lia|].
  by apply Z.div_le_mono.
Qed.

Lemma unique_snoc `{EqDecision A} (s : list A) (x : A) :
  unique (s ++ [x]) = if decide (x ∈ unique s) then unique s else unique s ++ [x].
Proof. unfold unique. by rewrite foldl_app. Qed.

Lemma unique_sorted (s : list Z) :
  StronglySorted Z.le s → StronglySorted Z.lt (unique s).
Proof.
  induction s as [|x s IH] using rev_ind; intros Hs; [constructor|].
  apply StronglySorted_app in Hs as (Hcross & Hs & _).
  rewrite unique_snoc. destruct (decide (x ∈ unique s)) as [Hin|Hnin]; [by apply IH|].
  apply StronglySorted_app_2; [|by apply IH|by repeat constructor].
  intros x1 x2 H1 H2. apply list_elem_of_singleton in H2 as ->.
  assert (x1 ≤ x) by (apply Hcross; [by apply unique_spec|set_solver]).
  assert (x1 ≠ x) by (intros ->; done). lia.
Qed.

(** X16.  For a positive bucket width and a log whose rows are in
    ascending timestamp order, the buckets are visited in strictly
    ascending order, so the valuation series, and with it the period
    returns, follow time. *)
Theorem buckets_of_ordered_log g df :
  0 < g → time_ordered df → StronglySorted Z.lt (buckets g df).
Proof.
  intros Hg Hord. unfold buckets. apply unique_sorted.
  rewrite <- list_fmap_compose.
  apply (StronglySorted_fmap _ (λ a b, timestamp a ≤ timestamp b)).
  - intros a b Hab. simpl. by apply floor_monotone.
  - by apply time_ordered_sorted.
Qed.

(** ** Pie chart of the simple dashboard *)

Lemma pie_loop_agrees latest_data a b :
  long_and_priced latest_data → (a == b)%Q →
  ∃ a' b',
    foldl (λ total_value kr,
             match GenerateDashboard.holding_value kr.2 with
             | Some value => fadd total_value value
             | None => total_value
             end) (Fin a) latest_data = Fin a'
    ∧ foldl fadd (Fin b)
        (GenerateDashboardHoldings.h_value
           <$> omap GenerateDashboardHoldings.holding_of latest_data) = Fin b'
    ∧ (a' == b')%Q.
Proof.
  revert a b. induction latest_data as [|kr l IH]; intros a b Hok Hab.
  - exists a, b. by repeat split.
  - assert (Hl : long_and_priced l).
    { intros kr' p Hin. apply Hok. set_solver. }
    destruct kr as [k [cl [p|] [c|]]];
      try (cbn [foldl omap list_omap]; by apply IH).
    destruct (Hok (k, GenerateDashboard.mkLatest cl (Some p) (Some c)) p)
      as [Hp0 [price Hprice]]; [set_solver|done|done|].
    simpl in Hprice. subst cl.
    cbn [foldl omap list_omap]. unfold GenerateDashboardHoldings.holding_of.
    cbn [snd fst GenerateDashboard.l_position_after GenerateDashboard.l_cash_after
         GenerateDashboard.l_close GenerateDashboard.holding_value cell fmul fadd].
    destruct (0 <? p) eqn:Hpos.
    + cbn [fmap list_fmap foldl GenerateDashboardHoldings.h_value fadd].
      apply IH; [done|]. by rewrite Hab.
    + apply Z.ltb_ge in Hpos. assert (p = 0) as -> by lia.
      apply IH; [done|]. rewrite Hab. simpl. ring.
Qed.

(** X17.  In the simple dashboard every holding listed has a positive
    number of shares, and when no counted ticker is short or without a
    price the slices of the pie chart, holdings and cash, add up to the
    total value printed above it. *)
Theorem pie_adds_up_to_total pd_sort df :
  (∀ h, h ∈ GenerateDashboardHoldings.holdings pd_sort df →
        0 < GenerateDashboardHoldings.h_shares h)
  ∧ (long_and_priced (GenerateDashboard.groupby_ticker_last pd_sort df) →
     feq (fsum (GenerateDashboardHoldings.pie_values pd_sort df))
         (GenerateDashboard.total_value pd_sort df)).
Proof.
  split.
  - intros h Hh. unfold GenerateDashboardHoldings.holdings in Hh.
    apply list_elem_of_omap in Hh as (kr & _ & Hkr).
    unfold GenerateDashboardHoldings.holding_of in Hkr.
    destruct (GenerateDashboard.l_position_after kr.2) as [p|]; [|done].
    destruct (GenerateDashboard.l_cash_after kr.2); [|done].
    destruct (0 <? p) eqn:Hpos; [|done]. injection Hkr as <-.
    simpl. by apply Z.ltb_lt.
  - intros Hok.
    destruct (pie_loop_agrees _ 0 0 Hok ltac:(reflexivity))
      as (a' & b' & Ha & Hb & Hab).
    unfold fsum, GenerateDashboardHoldings.pie_values,
      GenerateDashboardHoldings.holdings, GenerateDashboard.total_value,
      GenerateDashboard.holdings_total.
    rewrite foldl_app, Ha, Hb. simpl. by rewrite Hab.
Qed.

(** ** The further properties at sample inputs *)

Lemma recalculate_keeps_untracked_witness :
  let pm' := ExportDashboard.recalculate_portfolio_from_csv
               sort_values sample_pm sample_log in
  portfolio pm' !! "TSLA"%string = portfolio sample_pm !! "TSLA"%string
  ∧ stocks pm' = stocks sample_pm
  ∧ initial_value pm' = initial_value sample_pm.
Proof.
  apply (recalculate_keeps_untracked sort_values sample_pm sample_log "TSLA"%string).
  intros H. simpl in H.
  repeat (apply elem_of_cons in H as [H|H]; [discriminate H|]).
  by apply elem_of_nil in H.
Defined.

Lemma recalculate_trades_witness :
  (let pm' := ExportDashboard.recalculate_portfolio_from_csv
                sort_values sample_pm sample_log in
   ∃ built,
     ExportDashboard.trades_loop (filter (λ r, is_buy r) sample_log) = Ok built
     ∧ trades pm' ≡ₚ built
     ∧ trades_ascending (trades pm'))
  ∧ (let pm' := ExportDashboard.recalculate_portfolio_from_csv
                  sort_values stale_pm null_quantity_log in
     trades pm' = trades stale_pm
     ∧ Some 9000%Q = Some (cash pm')).
Proof.
  split.
  - assert (Hs : sorted_by_timestamp sample_log (sort_values sample_log))
      by sorted_literal.
    assert (HT : max_checkpoint_timestamp sample_log 86400).
    { split.
      - exists (mkRow 86400 "MSFT" "BUY" (Some 20) (Some 40%Q) (Some 20) (Some 8200%Q)).
        split; [|split; reflexivity].
        unfold sample_log. do 2 apply list_elem_of_further. apply list_elem_of_here.
      - intros r Hr Hck. unfold sample_log in Hr.
        repeat (apply elem_of_cons in Hr as [->|Hr];
                [simpl in *; first [lia|discriminate]|]).
        by apply elem_of_nil in Hr. }
    destruct (recalculate_trades sort_values sample_pm sample_log 86400 Hs HT)
      as [Hall _].
    destruct Hall as (built & Hbuilt & _ & _ & Hperm & Hasc & _).
    { repeat (apply Forall_cons_2; [eexists; reflexivity|]). apply Forall_nil_2. }
    exists built. split; [exact Hbuilt|]. split; [exact Hperm|exact Hasc].
  - assert (Hs : sorted_by_timestamp null_quantity_log
                                     (sort_values null_quantity_log))
      by sorted_literal.
    assert (HT : max_checkpoint_timestamp null_quantity_log 86400).
    { split.
      - exists (mkRow 86400 "AAPL" "HOLD" (Some 0) (Some 110%Q) (Some 10) (Some 9000%Q)).
        split; [|split; reflexivity].
        unfold null_quantity_log. apply list_elem_of_further, list_elem_of_here.
      - intros r Hr Hck. unfold null_quantity_log in Hr.
        repeat (apply elem_of_cons in Hr as [->|Hr];
                [simpl in *; first [lia|discriminate]|]).
        by apply elem_of_nil in Hr. }
    destruct (recalculate_trades sort_values stale_pm null_quantity_log 86400 Hs HT)
      as [_ Hstale].
    destruct Hstale as (_ & Htrades & Hcash & _).
    { intros Hall. apply Forall_cons_1 in Hall as [[n Hn] _]. discriminate Hn. }
    split; [exact Htrades|exact Hcash].
Defined.

Lemma recalculate_order_independent_witness :
  ExportDashboard.recalculate_portfolio_from_csv sort_values sample_pm out_of_order_log
  = ExportDashboard.recalculate_portfolio_from_csv sort_values sample_pm in_order_log.
Proof.
  apply recalculate_order_independent.
  - unfold sorted_by_timestamp.
    replace (sort_values out_of_order_log) with in_order_log by reflexivity.
    split.
    + unfold in_order_log, out_of_order_log. apply perm_skip, perm_swap.
    + unfold in_order_log.
      repeat first [ apply SSorted_nil | apply SSorted_cons
                   | apply Forall_nil_2 | apply Forall_cons_2 ]; simpl; lia.
  - sorted_literal.
  - unfold in_order_log, out_of_order_log. apply perm_skip, perm_swap.
  - intros r1 r2 H1 H2 Ht. unfold out_of_order_log in H1, H2.
    repeat (apply elem_of_cons in H1 as [->|H1]);
      try (by apply elem_of_nil in H1);
      repeat (apply elem_of_cons in H2 as [->|H2]);
      try (by apply elem_of_nil in H2);
      simpl in Ht; first [reflexivity|discriminate Ht].
Defined.

Lemma recent_trades_newest_first_witness :
  ∃ shown, recent_trades 5 six_trades = Some shown
    ∧ length shown = 5%nat
    ∧ trades_descending shown.
Proof.
  assert (Hasc : trades_ascending six_trades).
  { unfold trades_ascending, six_trades. simpl.
    repeat (constructor; [|repeat (constructor; [simpl; lia|]); constructor]).
    constructor. }
  destruct (recent_trades_newest_first 5 six_trades Hasc) as [_ H].
  eexists. split; [reflexivity|].
  destruct (H _ eq_refl) as (Hlen & Hdesc & _). split; [exact Hlen|exact Hdesc].
Defined.

Lemma valuation_series_closed_form_witness :
  portfolio_values day (stocks sample_pm) sample_log
  = Ok (valuation_series day (stocks sample_pm) sample_log)
  ∧ (length (valuation_series day (stocks sample_pm) sample_log)
     ≤ length (buckets day sample_log))%nat.
Proof.
  apply (valuation_series_closed_form day (stocks sample_pm) sample_log).
  intros r Hr. unfold sample_log in Hr.
  repeat (apply elem_of_cons in Hr as [->|Hr];
          [intros [_ Hex]; apply Exists_exists in Hex as (s & Hs & [? Hc]);
           simpl in Hs; each_elem Hs; discriminate Hc|]).
  by apply elem_of_nil in Hr.
Defined.

Lemma no_cash_no_valuation_witness :
  (∀ g, portfolio_values g (stocks sample_pm) no_cash_log = Ok [])
  ∧ ExportDashboard.calculate_performance_metrics sqrt_6 sample_pm no_cash_log
    = Ok None
  ∧ StaticDashboard.calculate_performance_metrics sqrt_6 no_cash_log sample_pm
    = Ok None.
Proof.
  apply (no_cash_no_valuation sqrt_6 sample_pm no_cash_log).
  intros r Hr. unfold no_cash_log in Hr. each_elem Hr.
Defined.

Lemma simple_dashboard_day_value_witness :
  (GenerateDashboardDaily.day_value sample_log 86400 == 10100)%Q.
Proof.
  apply (proj2 (simple_dashboard_day_value sample_log 86400)).
  reflexivity.
Defined.

Lemma metrics_win_rate_percentage_witness :
  ∃ m, StaticDashboard.calculate_performance_metrics sqrt_6 sample_log sample_pm
       = Ok (Some m)
       ∧ StaticDashboard.m_win_rate m = win_rate sample_log
       ∧ (0 <= StaticDashboard.m_win_rate m)%Q
       ∧ (StaticDashboard.m_win_rate m <= 100)%Q.
Proof.
  eexists. split; [reflexivity|].
  apply (proj2 (metrics_win_rate_percentage sqrt_6 sample_pm sample_log)).
  reflexivity.
Defined.


Lemma win_rate_without_later_prices_witness :
  is_winning unfollowed_buy_log
    (mkRow 172800 "AAPL" "BUY" (Some 1) (Some 105%Q) (Some 2) (Some 795%Q)) = false
  ∧ (win_rate unfollowed_buy_log < 100)%Q
  ∧ winning_trades last_buy_log = 0%nat ∧ (win_rate last_buy_log == 0)%Q.
Proof.
  destruct (win_rate_without_later_prices unfollowed_buy_log)
    as (_ & Hrow & _ & _ & Hbelow & _).
  destruct (win_rate_without_later_prices last_buy_log)
    as (_ & _ & _ & _ & _ & Hzero).
  split; [apply Hrow; reflexivity|]. split.
  - apply Hbelow.
    exists (mkRow 172800 "AAPL" "BUY" (Some 1) (Some 105%Q) (Some 2) (Some 795%Q)).
    split; [|reflexivity].
    unfold unfollowed_buy_log. rewrite filter_cons_True by exact I.
    rewrite filter_cons_False by (intros H; exact H).
    rewrite filter_cons_True by exact I.
    apply list_elem_of_further, list_elem_of_here.
  - apply Hzero. reflexivity.
Defined.

Lemma max_drawdown_dominates_every_drop_witness :
  ∃ d, max_drawdown [100; 120; 90; 150]%Q = Ok (Fin d)
       ∧ ((120 - 90) / 120 * 100 <= d)%Q.
Proof.
  apply (max_drawdown_dominates_every_drop _ [100%Q] 120 [] 90 [150%Q]).
  - reflexivity.
  - repeat constructor; discriminate.
  - reflexivity.
Defined.

Lemma worst_not_above_best_witness :
  ∃ qb qw, Fin 20.00 = Fin qb ∧ Fin (-2000 # 50) = Fin qw ∧ (qw <= qb)%Q.
Proof.
  assert (Hfin : finite_returns sample_log (stocks sample_pm)).
  { intros s x Hs. simpl in Hs.
    repeat (apply elem_of_cons in Hs as [->|Hs];
            [intros [= <-]; eexists; reflexivity|]).
    by apply elem_of_nil in Hs. }
  destruct (worst_not_above_best sample_log (stocks sample_pm) Hfin) as [_ H].
  apply (H "AAPL"%string _ "MSFT"%string _ eq_refl eq_refl).
Defined.

Lemma buckets_of_ordered_log_witness :
  StronglySorted Z.lt (buckets day sample_log).
Proof.
  apply buckets_of_ordered_log; [reflexivity|].
  simpl. repeat split; lia.
Defined.

Lemma pie_adds_up_to_total_witness :
  feq (fsum (GenerateDashboardHoldings.pie_values sort_values sample_log))
      (GenerateDashboard.total_value sort_values sample_log).
Proof.
  apply (proj2 (pie_adds_up_to_total sort_values sample_log)).
  assert (Hlatest : GenerateDashboard.groupby_ticker_last sort_values sample_log
                    = [ ("AAPL"%string,
                         GenerateDashboard.mkLatest (Some 120%Q) (Some 10) (Some 9000%Q));
                        ("MSFT"%string,
                         GenerateDashboard.mkLatest (Some 30%Q) (Some 20) (Some 8200%Q)) ])
    by reflexivity.
  rewrite Hlatest. intros kr p Hkr.
  repeat (apply elem_of_cons in Hkr as [->|Hkr];
          [intros [= <-] _; split; [lia|eexists; reflexivity]|]).
  by apply elem_of_nil in Hkr.
Defined.

(** ** Price chart *)

Lemma colors_index_in_range (i : nat) :
  ∃ c, list_index colors (i `mod` length colors) = Ok c ∧ c ∈ colors.
Proof.
  unfold list_index.
  assert (Hlt : (i `mod` length colors < length colors)%nat).
  { apply Nat.mod_upper_bound. simpl. lia. }
  apply lookup_lt_is_Some in Hlt as [c Hc]. rewrite Hc.
  exists c. split; [done|]. by eapply list_elem_of_lookup_2.
Qed.

Lemma prices_loop_spec df i tracked :
  ∃ data, prices_loop df i tracked = Ok data
    ∧ trace_name <$> data
      = filter (λ s, filter (λ r, of_ticker s r) df ≠ []) tracked
    ∧ Forall (λ t, trace_x t = timestamp <$> filter (λ r, of_ticker (trace_name t) r) df
                   ∧ trace_y t = close <$> filter (λ r, of_ticker (trace_name t) r) df
                   ∧ trace_color t ∈ colors) data.
Proof.
  revert i. induction tracked as [|s tracked IH]; intros i.
  - exists []. by repeat split.
  - cbn [prices_loop]. rewrite filter_cons.
    destruct (IH (S i)) as (data & Hdata & Hnames & Hall).
    case_bool_decide as Hempty.
    + exists data. rewrite Hdata. split; [done|]. split; [|done].
      by rewrite decide_False by (intros H; by apply H).
    + destruct (colors_index_in_range i) as (c & Hc & Hin).
      rewrite Hc, Hdata. cbn [mbind exc_bind mret exc_ret].
      eexists. split; [done|]. split.
      * rewrite decide_True by done. cbn [fmap list_fmap trace_name].
        by rewrite <- Hnames.
      * constructor; [by repeat split|done].
Qed.

(** X18.  For every non-empty log and any number of tracked tickers the
    price chart is built without error, the colour index [i % 5] being
    always in range: it has one line for each tracked ticker that occurs
    in the log, in the order of [pm.stocks], with all the rows of that
    ticker in file order and as many closes as timestamps.  An empty log
    gives the empty chart. *)
Theorem prices_chart_lines pm df :
  (df = [] → create_prices_chart pm df = Ok None)
  ∧ (df ≠ [] →
     ∃ data, create_prices_chart pm df = Ok (Some data)
       ∧ trace_name <$> data
         = filter (λ s, filter (λ r, of_ticker s r) df ≠ []) (stocks pm)
       ∧ Forall (λ t, trace_x t
                      = timestamp <$> filter (λ r, of_ticker (trace_name t) r) df
                      ∧ trace_y t
                        = close <$> filter (λ r, of_ticker (trace_name t) r) df
                      ∧ length (trace_x t) = length (trace_y t)
                      ∧ trace_color t ∈ colors) data).
Proof.
  unfold create_prices_chart. split; intros Hdf.
  - by rewrite bool_decide_eq_true_2.
  - rewrite bool_decide_eq_false_2 by done.
    destruct (prices_loop_spec df 0 (stocks pm)) as (data & -> & Hnames & Hall).
    exists data. split; [done|]. split; [done|].
    eapply Forall_impl; [exact Hall|]. intros t (Hx & Hy & Hc).
    repeat split; try done. by rewrite Hx, Hy, !length_fmap.
Qed.

Lemma prices_chart_lines_witness :
  ∃ data, create_prices_chart sample_pm sample_log = Ok (Some data)
    ∧ trace_name <$> data = ["AAPL"; "MSFT"]%string.
Proof.
  destruct (proj2 (prices_chart_lines sample_pm sample_log)) as (data & H & Hn & _).
  - discriminate.
  - exists data. split; [exact H|]. rewrite Hn. reflexivity.
Defined.
